(** * structuralcodes: ACI 318-19 formulas and the concrete facade

    A shallow embedding of

      - [structuralcodes/codes/aci318_19/_concrete_material_properties.py]
        ([Ec], [f_r], [exposure_class_requirements]),
      - [structuralcodes/codes/aci318_19/_reinforcement_material_properties.py]
        ([fyd], [fud]),
      - [structuralcodes/codes/aci318_19/shear.py] ([calc_shear_strength]),
      - [structuralcodes/materials/concrete/_concreteACI318_19.py]
        (the properties [Ec], [fct], [eps_cu] of [ConcreteACI318_19] and
        the builders of constitutive-law arguments),
      - [structuralcodes/materials/reinforcement/_reinforcementEC2_2023.py]
        ([gamma_s], [fyd]),
      - [tests/test_aci_318_19/test_aci_318_19_concrete_material_properties.py]
        ([test_Ec], [test_f_r]).

    Numbers.  Python's [float] is modelled by the real numbers [R]: the
    arithmetic is exact, and rounding, overflow, infinities and NaN are not
    represented.  Everything else of Python's behaviour that the functions
    rely on is kept: exceptions ([math.sqrt] of a negative number, division
    by zero, the input checks), truthiness of [0] and [None], the value that
    [min] and [max] select, and the complex result of raising a negative
    number to a fractional power, which later fails in a comparison. *)

From Stdlib Require Import Reals Lra Bool List String.
From Stdlib Require Import Ascii ZArith Lia.
Import ListNotations.

Local Open Scope R_scope.

(** ** Exceptions and the error monad *)

(** The text of an exception: a fixed string, or an f-string that ends with
    the offending number. *)
Inductive message : Type :=
| Msg (text : string)
| MsgGot (text : string) (got : R).

Inductive exn : Type :=
| ValueError (m : message)
| ZeroDivisionError
| TypeError.

Inductive result (A : Type) : Type :=
| Ok (a : A)
| Raise (e : exn).

Arguments Ok {A} a.
Arguments Raise {A} e.

Definition bind {A B : Type} (c : result A) (k : A -> result B) : result B :=
  match c with
  | Ok a => k a
  | Raise e => Raise e
  end.

Notation "x <- c ;; k" := (bind c (fun x => k))
  (at level 61, c at next level, right associativity).
Notation "c ;;; k" := (bind c (fun _ => k))
  (at level 61, right associativity).

(** [if cond: raise e] *)
Definition raise_if (cond : bool) (e : exn) : result unit :=
  if cond then Raise e else Ok tt.

(** ** Python numbers *)

(** A number is a float or, after [**] on a negative base, a complex. *)
Inductive pynum : Type :=
| PyFloat (x : R)
| PyComplex (re im : R).

Coercion PyFloat : R >-> pynum.

Definition Rltb (x y : R) : bool := if Rlt_dec x y then true else false.
Definition Rleb (x y : R) : bool := if Rle_dec x y then true else false.
Definition Reqb (x y : R) : bool := if Req_dec_T x y then true else false.

(** Truthiness of a float: [bool(x)] is [x != 0]. *)
Definition truthy (x : R) : bool := negb (Reqb x 0).

Definition to_complex (a : pynum) : R * R :=
  match a with
  | PyFloat x => (x, 0)
  | PyComplex re im => (re, im)
  end.

(** [a * b]: float arithmetic, or complex arithmetic as soon as one operand
    is complex. *)
Definition py_mul (a b : pynum) : pynum :=
  match a, b with
  | PyFloat x, PyFloat y => PyFloat (x * y)
  | _, _ =>
      let '(ar, ai) := to_complex a in
      let '(br, bi) := to_complex b in
      PyComplex (ar * br - ai * bi) (ar * bi + ai * br)
  end.

Definition py_add (a b : pynum) : pynum :=
  match a, b with
  | PyFloat x, PyFloat y => PyFloat (x + y)
  | _, _ =>
      let '(ar, ai) := to_complex a in
      let '(br, bi) := to_complex b in
      PyComplex (ar + br) (ai + bi)
  end.

Infix "*!" := py_mul (at level 40, left associativity).
Infix "+!" := py_add (at level 50, left associativity).

(** [a / b] on floats: [ZeroDivisionError] when [b] is zero. *)
Definition py_div (a b : R) : result R :=
  if Reqb b 0 then Raise ZeroDivisionError else Ok (a / b).

(** [math.sqrt(x)]: [ValueError: math domain error] on a negative number. *)
Definition math_sqrt (x : R) : result R :=
  if Rltb x 0 then Raise (ValueError (Msg "math domain error"))
  else Ok (sqrt x).

(** Whether a float holds an integer ([y == floor(y)]). *)
Definition is_integer (y : R) : bool := Reqb (IZR (Int_part y)) y.

(** [x ** y] on floats.  A zero base gives [0] for a positive exponent, [1]
    for a zero exponent and [ZeroDivisionError] for a negative one; a
    positive base gives the real power; a negative base gives a real for
    an integer exponent and otherwise the complex number
    [|x|^y * (cos (pi y) + i sin (pi y))]. *)
Definition py_pow (x y : R) : result pynum :=
  if Reqb x 0 then
    if Rltb 0 y then Ok (PyFloat 0)
    else if Reqb y 0 then Ok (PyFloat 1)
    else Raise ZeroDivisionError
  else if Rltb 0 x then Ok (PyFloat (Rpower x y))
  else if is_integer y then Ok (PyFloat (powerRZ x (Int_part y)))
  else Ok (PyComplex (Rpower (- x) y * cos (PI * y))
                     (Rpower (- x) y * sin (PI * y))).

(** [min(a, b)] keeps [a] unless [b < a]; [max(a, b)] keeps [a] unless
    [b > a].  Ordering is defined between floats only: with a complex
    operand the comparison raises [TypeError].  A comparison that succeeds
    has two float operands, so the value selected is a float. *)
Definition py_min (a b : pynum) : result R :=
  match a, b with
  | PyFloat x, PyFloat y => Ok (if Rltb y x then y else x)
  | _, _ => Raise TypeError
  end.

Definition py_max (a b : pynum) : result R :=
  match a, b with
  | PyFloat x, PyFloat y => Ok (if Rltb x y then y else x)
  | _, _ => Raise TypeError
  end.

(** [abs(x)] on a float. *)
Definition py_abs (x : R) : R := Rabs x.

(** ** [codes/aci318_19/_concrete_material_properties.py] *)

(** [Ec(f_c, w_c=145)] *)
Definition Ec (f_c w_c : R) : result pynum :=
  if Rleb 90 w_c && Rleb w_c 160 then
    p <- py_pow w_c (15 / 10) ;;
    s <- math_sqrt f_c ;;
    Ok (PyFloat 33 *! p *! PyFloat s)
  else
    s <- math_sqrt f_c ;;
    Ok (PyFloat (57000 * s)).

(** [f_r(f_c, lambda_=1.0)] *)
Definition f_r (f_c lambda_ : R) : result R :=
  s <- math_sqrt f_c ;;
  Ok (lambda_ * (75 / 10) * s).

(** ** [codes/aci318_19/_reinforcement_material_properties.py] *)

(** [fyd(fy, gamma_s=1.15)] *)
Definition fyd (fy gamma_s : R) : result R :=
  raise_if (Rleb fy 0)
    (ValueError (MsgGot "fy must be greater than 0, got " fy)) ;;;
  raise_if (Rltb gamma_s 1)
    (ValueError
       (MsgGot "gamma_s must be greater than or equal to 1, got " gamma_s)) ;;;
  py_div fy gamma_s.

(** [fud(fu, gamma_s=1.15)] *)
Definition fud (fu gamma_s : R) : result R :=
  raise_if (Rleb fu 0)
    (ValueError (MsgGot "fu must be greater than 0, got " fu)) ;;;
  raise_if (Rltb gamma_s 1)
    (ValueError
       (MsgGot "gamma_s must be greater than or equal to 1, got " gamma_s)) ;;;
  py_div fu gamma_s.

(** ** [codes/aci318_19/shear.py] *)

(** The dictionary [{'Vc': ..., 'Vn': ..., 'phi': ..., 'lambda_s': ...}]. *)
Record shear_strength : Type := mk_shear_strength {
  Vc : R;
  Vn : R;
  phi : R;
  lambda_s : R
}.

(** [lambda_s = min(math.sqrt(2 / (1 + d / 10)), 1.0)] *)
Definition size_effect_factor (d : R) : result R :=
  q <- py_div 2 (1 + d / 10) ;;
  s <- math_sqrt q ;;
  py_min (PyFloat s) (PyFloat 1).

(** The branch for sections with minimum shear reinforcement
    ([Av_min is not None and Av_min >= 0]): [max(Vc_a, Vc_b)]. *)
Definition Vc_with_min_reinf (f_c bw d Av_min lambda_concrete : R)
    : result pynum :=
  s <- math_sqrt f_c ;;
  let Vc_a := 2 * lambda_concrete * s * bw * d in
  rho <- py_div Av_min (bw * d) ;;
  p <- py_pow rho (1 / 3) ;;
  s' <- math_sqrt f_c ;;
  let Vc_b :=
    PyFloat (8 * lambda_concrete) *! p *! PyFloat s' *! PyFloat bw
      *! PyFloat d in
  m <- py_max (PyFloat Vc_a) Vc_b ;;
  Ok (PyFloat m).

(** The [else] branch, for sections without minimum shear reinforcement:
    [rho_w = Av_min / (bw * d) if Av_min else 0], then the formula with the
    size-effect factor. *)
Definition Vc_without_min_reinf (f_c bw d : R) (Av_min : option R)
    (lambda_concrete lambda_s : R) : result pynum :=
  rho_w <- match Av_min with
           | Some a => if truthy a then py_div a (bw * d) else Ok 0
           | None => Ok 0
           end ;;
  p <- py_pow rho_w (1 / 3) ;;
  s <- math_sqrt f_c ;;
  Ok (PyFloat (8 * lambda_s * lambda_concrete) *! p *! PyFloat s
        *! PyFloat bw *! PyFloat d).

(** The value of [Vc] after the [if]/[else] on [Av_min] (Table 22.5.5.1,
    nonprestressed case), before the axial load and the limit. *)
Definition Vc_table (f_c bw d : R) (Av_min : option R)
    (lambda_concrete lambda_s : R) : result pynum :=
  match Av_min with
  | Some a =>
      if Rleb 0 a then Vc_with_min_reinf f_c bw d a lambda_concrete
      else Vc_without_min_reinf f_c bw d Av_min lambda_concrete lambda_s
  | None => Vc_without_min_reinf f_c bw d Av_min lambda_concrete lambda_s
  end.

(** [Nu_term = min(Nu / (6 * Ag), 0.05 * f_c) if Nu and Ag else 0] *)
Definition axial_term (f_c Nu : R) (Ag : option R) : result R :=
  match Ag with
  | Some ag =>
      if truthy Nu && truthy ag then
        q <- py_div Nu (6 * ag) ;;
        py_min (PyFloat q) (PyFloat (5 / 100 * f_c))
      else Ok 0
  | None => Ok 0
  end.

Definition is_None {A : Type} (o : option A) : bool :=
  match o with
  | None => true
  | Some _ => false
  end.

Definition Ag_required : exn :=
  ValueError (Msg "Ag must be provided if Nu is not zero.").

(** A computation that does not raise the input check's error. *)
Definition not_the_check {A : Type} (r : result A) : Prop :=
  r <> Raise Ag_required.

(** [calc_shear_strength(f_c, bw, d, Nu=0.0, Ag=None, Av_min=None,
    lambda_concrete=1.0, phi=None)] *)
Definition calc_shear_strength (f_c bw d Nu : R) (Ag Av_min : option R)
    (lambda_concrete : R) (phi : option R) : result shear_strength :=
  raise_if (truthy Nu && is_None Ag) Ag_required ;;;
  lambda_s <- size_effect_factor d ;;
  Vc <- Vc_table f_c bw d Av_min lambda_concrete lambda_s ;;
  Nu_term <- axial_term f_c Nu Ag ;;
  let Vc := Vc +! PyFloat (Nu_term * bw * d) in
  s <- math_sqrt f_c ;;
  let Vc_max := 5 * lambda_concrete * s * bw * d in
  Vc <- py_min Vc (PyFloat Vc_max) ;;
  let phi := match phi with Some p => p | None => 75 / 100 end in
  let Vn := phi * Vc in
  Ok (mk_shear_strength Vc Vn phi lambda_s).

(** ** [materials/concrete/_concreteACI318_19.py] *)

(** Truthiness of a stored number: zero (float or complex) is falsy. *)
Definition truthy_num (v : pynum) : bool :=
  match v with
  | PyFloat x => truthy x
  | PyComplex re im => truthy re || truthy im
  end.

(** The derived properties of the facade. *)
Inductive derived : Type := D_Ec | D_fct | D_eps_cu.

Definition derived_eqb (p q : derived) : bool :=
  match p, q with
  | D_Ec, D_Ec | D_fct, D_fct | D_eps_cu, D_eps_cu => true
  | _, _ => false
  end.

(** The private attributes of an instance.  [_fc] is read by the getters
    and written by none of the methods here: it holds whatever the base
    class left there ([None] is the class attribute's value). *)
Record ConcreteACI318_19 : Type := mk_concrete {
  _fc : option R;
  _fct : option pynum;
  _Ec : option pynum;
  _eps_cu : option pynum
}.

(** An instance together with the log of the calls made into the code
    module [aci318_19], most recent first.  The log is not part of the
    Python object; it records when a getter computes from [_fc]. *)
Record world : Type := mk_world {
  self : ConcreteACI318_19;
  calls : list derived
}.

Definition backing (p : derived) (c : ConcreteACI318_19) : option pynum :=
  match p with
  | D_Ec => _Ec c
  | D_fct => _fct c
  | D_eps_cu => _eps_cu c
  end.

Definition store (p : derived) (v : option pynum) (c : ConcreteACI318_19)
    : ConcreteACI318_19 :=
  match p with
  | D_Ec => mk_concrete (_fc c) (_fct c) v (_eps_cu c)
  | D_fct => mk_concrete (_fc c) v (_Ec c) (_eps_cu c)
  | D_eps_cu => mk_concrete (_fc c) (_fct c) (_Ec c) v
  end.

(** [aci318_19.Ec(self._fc)]: [w_c] takes its default, and [math.sqrt]
    rejects [None]. *)
Definition aci318_19_Ec (fc : option R) : result pynum :=
  match fc with
  | Some f => Ec f 145
  | None => Raise TypeError
  end.

Section Facade.

(** [aci318_19.fct] and [aci318_19.eps_cu] are called by the facade and
    defined in none of the files at hand: they are parameters here. *)
Variable aci318_19_fct : option R -> result pynum.
Variable aci318_19_eps_cu : option R -> result pynum.

Definition primitive (p : derived) : option R -> result pynum :=
  match p with
  | D_Ec => aci318_19_Ec
  | D_fct => aci318_19_fct
  | D_eps_cu => aci318_19_eps_cu
  end.

(** [self._p = aci318_19.p(self._fc); return self._p]: the call is logged;
    when it raises, nothing is assigned. *)
Definition compute (p : derived) (w : world) : result pynum * world :=
  match primitive p (_fc (self w)) with
  | Ok v => (Ok v, mk_world (store p (Some v) (self w)) (p :: calls w))
  | Raise e => (Raise e, mk_world (self w) (p :: calls w))
  end.

(** The getters.  [Ec] and [fct] test [is None]; [eps_cu] is
    [self._eps_cu = self._eps_cu or aci318_19.eps_cu(self._fc)]. *)
Definition get (p : derived) (w : world) : result pynum * world :=
  match p with
  | D_Ec | D_fct =>
      match backing p (self w) with
      | None => compute p w
      | Some v => (Ok v, w)
      end
  | D_eps_cu =>
      match backing p (self w) with
      | Some v =>
          if truthy_num v
          then (Ok v, mk_world (store p (Some v) (self w)) (calls w))
          else compute p w
      | None => compute p w
      end
  end.

(** The setters: [Ec] and [fct] store [abs(value)], [eps_cu] stores
    [value]. *)
Definition set (p : derived) (value : R) (w : world) : world :=
  match p with
  | D_Ec | D_fct =>
      mk_world (store p (Some (PyFloat (py_abs value))) (self w)) (calls w)
  | D_eps_cu =>
      mk_world (store p (Some (PyFloat value)) (self w)) (calls w)
  end.

(** What a caller does with an instance. *)
Inductive op : Type :=
| Read (p : derived)
| Write (p : derived) (value : R).

Definition step (o : op) (w : world) : world :=
  match o with
  | Read p => snd (get p w)
  | Write p v => set p v w
  end.

Definition run (ops : list op) (w : world) : world :=
  fold_left (fun w o => step o w) ops w.

Definition writes (p : derived) (o : op) : bool :=
  match o with
  | Read _ => false
  | Write q _ => derived_eqb p q
  end.

End Facade.

(** What an override of [p] by [value] leaves in the backing field. *)
Definition stored (p : derived) (value : R) : pynum :=
  match p with
  | D_Ec | D_fct => PyFloat (py_abs value)
  | D_eps_cu => PyFloat value
  end.

(** How many times the code module was called for [p]. *)
Definition calls_for (p : derived) (w : world) : nat :=
  List.length (filter (derived_eqb p) (calls w)).

(** No operation of the list writes [p]. *)
Definition no_write (p : derived) (ops : list op) : bool :=
  forallb (fun o => negb (writes p o)) ops.

(** ** The specification's formulas, over the reals *)

(** [x^y] as the specification writes it, for a base [x >= 0] and an
    exponent [y > 0]: zero at [x = 0]. *)
Definition real_pow (x y : R) : R :=
  if Req_dec_T x 0 then 0 else Rpower x y.

(** Size-effect factor: [min (sqrt (2 / (1 + d/10)), 1.0)]. *)
Definition lambda_s_spec (d : R) : R := Rmin (sqrt (2 / (1 + d / 10))) 1.

(** Step 2 of the shear engine: the two candidates and their maximum when
    a minimum reinforcement [Av_min >= 0] is given, and otherwise the
    formula with the reinforcement ratio [rho_w] and the size-effect
    factor. *)
Definition Vc_a_spec (f_c bw d lambda_concrete : R) : R :=
  2 * lambda_concrete * sqrt f_c * bw * d.

Definition Vc_b_spec (f_c bw d Av_min lambda_concrete : R) : R :=
  8 * lambda_concrete * real_pow (Av_min / (bw * d)) (1 / 3) * sqrt f_c
    * bw * d.

Definition rho_w_spec (bw d : R) (Av_min : option R) : R :=
  match Av_min with
  | Some a => if Req_dec_T a 0 then 0 else a / (bw * d)
  | None => 0
  end.

Definition Vc_step2_spec (f_c bw d : R) (Av_min : option R)
    (lambda_concrete : R) : R :=
  match Av_min with
  | Some a =>
      if Rle_dec 0 a
      then Rmax (Vc_a_spec f_c bw d lambda_concrete)
                (Vc_b_spec f_c bw d a lambda_concrete)
      else 8 * lambda_s_spec d * lambda_concrete
             * real_pow (rho_w_spec bw d Av_min) (1 / 3) * sqrt f_c * bw * d
  | None =>
      8 * lambda_s_spec d * lambda_concrete
        * real_pow (rho_w_spec bw d Av_min) (1 / 3) * sqrt f_c * bw * d
  end.

(** Step 3: [min (Nu / (6 Ag), 0.05 f'c)] if both [Nu] and [Ag] are
    truthy, else [0]. *)
Definition Nu_term_spec (f_c Nu : R) (Ag : option R) : R :=
  match Ag with
  | Some ag =>
      if Req_dec_T Nu 0 then 0
      else if Req_dec_T ag 0 then 0
      else Rmin (Nu / (6 * ag)) (5 / 100 * f_c)
  | None => 0
  end.

(** Step 4: the ceiling [5 lambda sqrt(f'c) bw d]. *)
Definition Vc_max_spec (f_c bw d lambda_concrete : R) : R :=
  5 * lambda_concrete * sqrt f_c * bw * d.

(** ** Sample instances *)

(** A code module whose [fct] and [eps_cu] are constant: the typical
    ultimate strain [0.003] of the class's documentation. *)
Definition sample_fct (fc : option R) : result pynum := Ok (PyFloat 474).
Definition sample_eps_cu (fc : option R) : result pynum :=
  Ok (PyFloat (3 / 1000)).

(** An instance on which no property was read yet and whose [_fc] holds
    the strength [4000]: what a constructor that stores the strength
    under [_fc] leaves.  (The [__init__] of the class hands [fc] to the
    base class as [fck] and assigns [_fc] nowhere: see [fresh].) *)
Definition C4000 : world :=
  mk_world (mk_concrete (Some 4000) None None None) [].

(** ** [exposure_class_requirements] *)

(** Strings are sequences of 8-bit characters, and [str.upper] and
    [str.lower] act on the letters [a]-[z] and [A]-[Z].  (The keys of the
    table are ASCII, and no character outside ASCII has an ASCII
    upper-case form among [X], [C], [1], [2].) *)
Definition upper_ascii (c : ascii) : ascii :=
  let n := N_of_ascii c in
  if ((97 <=? n) && (n <=? 122))%N then ascii_of_N (n - 32) else c.

Definition lower_ascii (c : ascii) : ascii :=
  let n := N_of_ascii c in
  if ((65 <=? n) && (n <=? 90))%N then ascii_of_N (n + 32) else c.

Fixpoint upper (s : string) : string :=
  match s with
  | EmptyString => EmptyString
  | String c s' => String (upper_ascii c) (upper s')
  end.

Fixpoint lower (s : string) : string :=
  match s with
  | EmptyString => EmptyString
  | String c s' => String (lower_ascii c) (lower s')
  end.

(** A dictionary literal with string keys, and [d.get(key, None)]. *)
Fixpoint dict_get {V : Type} (d : list (string * V)) (key : string)
    : option V :=
  match d with
  | [] => None
  | (k, v) :: d' => if String.eqb k key then Some v else dict_get d' key
  end.

(** [{'min_cement_content': ..., 'max_w_c_ratio': ...}] *)
Record requirement : Type := mk_requirement {
  min_cement_content : Z;
  max_w_c_ratio : R
}.

Definition requirements : list (string * requirement) :=
  [ ("XC1"%string, mk_requirement 300 (65 / 100));
    ("XC2"%string, mk_requirement 320 (60 / 100)) ].

(** [exposure_class_requirements(exposure_class)] *)
Definition exposure_class_requirements (exposure_class : string)
    : option requirement :=
  dict_get requirements (upper exposure_class).

(** ** [tests/test_aci_318_19/test_aci_318_19_concrete_material_properties.py] *)

(** [math.isclose(a, b, rel_tol=rel_tol)], with [abs_tol] at its default
    [0.0]: [abs(a - b) <= max(rel_tol * max(abs(a), abs(b)), abs_tol)]. *)
Definition math_isclose (a b rel_tol : R) : bool :=
  Rleb (Rabs (a - b)) (Rmax (rel_tol * Rmax (Rabs a) (Rabs b)) 0).

(** The condition that [test_Ec] asserts; [math.isclose] takes floats
    only. *)
Definition test_Ec (f_c w_c expected : R) : result bool :=
  e <- Ec f_c w_c ;;
  match e with
  | PyFloat x => Ok (math_isclose x expected (1 / 100))
  | PyComplex _ _ => Raise TypeError
  end.

(** The condition that [test_f_r] asserts. *)
Definition test_f_r (f_c lambda_ expected : R) : result bool :=
  x <- f_r f_c lambda_ ;;
  Ok (math_isclose x expected (1 / 100)).

(** The [parametrize] lists of the two tests. *)
Definition test_Ec_cases : list (R * R * R) :=
  [ (4000, 145, 364414743 / 100);
    (5000, 145, 407428069 / 100);
    (4000, 120, 274356848 / 100);
    (5000, 120, 306740281 / 100) ].

Definition test_f_r_cases : list (R * R * R) :=
  [ (4000, 1, 47434 / 100);
    (5000, 1, 53033 / 100);
    (4000, 8 / 10, 37947 / 100);
    (5000, 8 / 10, 42426 / 100) ].

(** ** The constitutive-law builders of [_concreteACI318_19.py] *)

(** The keyword dictionary a builder returns; a value is a number or
    [None] (what [_fc] may hold). *)
Definition kwargs : Type := list (string * option pynum).

Section Builders.

Variable aci318_19_fct : option R -> result pynum.
Variable aci318_19_eps_cu : option R -> result pynum.

(** [return {'E': self.Ec}] *)
Definition __elastic__ (w : world) : result kwargs * world :=
  let (r, w') := get aci318_19_fct aci318_19_eps_cu D_Ec w in
  (v <- r ;; Ok [("E"%string, Some v)], w').

(** [return {'fc': self._fc, 'eps_c': 0.002, 'eps_cu': self.eps_cu}]: the
    values are evaluated in the order written. *)
Definition __bilinearcompression__ (w : world) : result kwargs * world :=
  let fc := option_map PyFloat (_fc (self w)) in
  let (r, w') := get aci318_19_fct aci318_19_eps_cu D_eps_cu w in
  (v <- r ;;
   Ok [("fc"%string, fc);
       ("eps_c"%string, Some (PyFloat (2 / 1000)));
       ("eps_cu"%string, Some v)], w').

(** [return {'fc': self._fc, 'eps_0': 0.002, 'eps_u': self.eps_cu,
    'n': 2.0}] *)
Definition __parabolarectangle__ (w : world) : result kwargs * world :=
  let fc := option_map PyFloat (_fc (self w)) in
  let (r, w') := get aci318_19_fct aci318_19_eps_cu D_eps_cu w in
  (v <- r ;;
   Ok [("fc"%string, fc);
       ("eps_0"%string, Some (PyFloat (2 / 1000)));
       ("eps_u"%string, Some v);
       ("n"%string, Some (PyFloat 2))], w').

(** [__sargin__(self)], a function of the module (its [def] is not
    indented under the class), called on an instance:
    [return {'fc': self._fc, 'eps_c1': 0.002, 'eps_cu1': self.eps_cu,
    'k': 1.5}] *)
Definition __sargin__ (w : world) : result kwargs * world :=
  let fc := option_map PyFloat (_fc (self w)) in
  let (r, w') := get aci318_19_fct aci318_19_eps_cu D_eps_cu w in
  (v <- r ;;
   Ok [("fc"%string, fc);
       ("eps_c1"%string, Some (PyFloat (2 / 1000)));
       ("eps_cu1"%string, Some v);
       ("k"%string, Some (PyFloat (15 / 10)))], w').

End Builders.

(** How many reads of [p] a list of operations makes. *)
Definition reads_of (p : derived) (ops : list op) : nat :=
  List.length (filter (fun o => match o with
                                | Read q => derived_eqb p q
                                | Write _ _ => false
                                end) ops).

(** An operation that reads or writes [p]. *)
Definition concerns (p : derived) (o : op) : bool :=
  match o with
  | Read q => derived_eqb p q
  | Write q _ => derived_eqb p q
  end.

(** A result of the code module that the getter of [p] keeps and serves
    again: any value for [Ec] and [fct], a truthy one for [eps_cu]; an
    exception is not kept. *)
Definition kept_by_getter (p : derived) (r : result pynum) : bool :=
  match r with
  | Ok v => match p with
            | D_Ec | D_fct => true
            | D_eps_cu => truthy_num v
            end
  | Raise _ => false
  end.

(** The getter of [p] finds nothing to return in the backing field:
    [None], or for [eps_cu] a falsy number. *)
Definition finds_nothing (p : derived) (c : ConcreteACI318_19) : bool :=
  match backing p c with
  | None => true
  | Some v => match p with
              | D_Ec | D_fct => false
              | D_eps_cu => negb (truthy_num v)
              end
  end.

(** ** [materials/reinforcement/_reinforcementEC2_2023.py] *)

(** The property [gamma_s]: [return self._gamma_s or 1.15], on the value
    the constructor was given. *)
Definition gamma_s (_gamma_s : option R) : R :=
  match _gamma_s with
  | Some g => if truthy g then g else 115 / 100
  | None => 115 / 100
  end.

Section ReinforcementEC2_2023.

(** [ec2_2023.fyd] is called by the class and defined in none of the
    files at hand: it is a parameter here. *)
Variable ec2_2023_fyd : R -> R -> result R.

(** The method [fyd]: [return ec2_2023.fyd(self.fyk, self.gamma_s)]. *)
Definition ReinforcementEC2_2023_fyd (fyk : R) (_gamma_s : option R)
    : result R :=
  ec2_2023_fyd fyk (gamma_s _gamma_s).

End ReinforcementEC2_2023.

(** [ConcreteACI318_19(fc=...)] as [__init__] leaves it: [_fc], [_fct],
    [_Ec] and [_eps_cu] are the class attributes, all [None]. *)
Definition fresh : world :=
  mk_world (mk_concrete None None None None) [].

(** ** Basic facts on the Python layer *)

Lemma Rltb_true (x y : R) : x < y -> Rltb x y = true.
Proof. intros H; unfold Rltb; destruct (Rlt_dec x y); [reflexivity | lra]. Qed.

Lemma Rltb_false (x y : R) : y <= x -> Rltb x y = false.
Proof. intros H; unfold Rltb; destruct (Rlt_dec x y); [lra | reflexivity]. Qed.

Lemma Rleb_true (x y : R) : x <= y -> Rleb x y = true.
Proof. intros H; unfold Rleb; destruct (Rle_dec x y); [reflexivity | lra]. Qed.

Lemma Rleb_false (x y : R) : y < x -> Rleb x y = false.
Proof. intros H; unfold Rleb; destruct (Rle_dec x y); [lra | reflexivity]. Qed.

Lemma Reqb_true (x y : R) : x = y -> Reqb x y = true.
Proof. intros H; unfold Reqb; destruct (Req_dec_T x y); [reflexivity | lra]. Qed.

Lemma Reqb_false (x y : R) : x <> y -> Reqb x y = false.
Proof.
  intros H; unfold Reqb; destruct (Req_dec_T x y); [contradiction | reflexivity].
Qed.

Lemma truthy_true (x : R) : x <> 0 -> truthy x = true.
Proof. intros H; unfold truthy; now rewrite Reqb_false. Qed.

Lemma truthy_false (x : R) : x = 0 -> truthy x = false.
Proof. intros H; unfold truthy; now rewrite Reqb_true. Qed.

(** Case analysis on every comparison of reals in sight. *)
Ltac r_cases :=
  unfold truthy, Rltb, Rleb, Reqb in *;
  repeat match goal with
  | |- context [Rlt_dec ?a ?b] => destruct (Rlt_dec a b)
  | |- context [Rle_dec ?a ?b] => destruct (Rle_dec a b)
  | |- context [Req_dec_T ?a ?b] => destruct (Req_dec_T a b)
  | H : context [Rlt_dec ?a ?b] |- _ => destruct (Rlt_dec a b)
  | H : context [Rle_dec ?a ?b] |- _ => destruct (Rle_dec a b)
  | H : context [Req_dec_T ?a ?b] |- _ => destruct (Req_dec_T a b)
  end;
  simpl in *.

Lemma math_sqrt_ok (x : R) : 0 <= x -> math_sqrt x = Ok (sqrt x).
Proof. intros H; unfold math_sqrt; now rewrite Rltb_false. Qed.

Lemma math_sqrt_neg (x : R) :
  x < 0 -> math_sqrt x = Raise (ValueError (Msg "math domain error")).
Proof. intros H; unfold math_sqrt; now rewrite Rltb_true. Qed.

Lemma math_sqrt_Ok_inv (x s : R) :
  math_sqrt x = Ok s -> 0 <= x /\ s = sqrt x.
Proof.
  unfold math_sqrt; intros H; r_cases; [discriminate |].
  injection H as <-; split; [lra | reflexivity].
Qed.

Lemma py_div_ok (a b : R) : b <> 0 -> py_div a b = Ok (a / b).
Proof. intros H; unfold py_div; now rewrite Reqb_false. Qed.

Lemma py_div_Ok_inv (a b q : R) : py_div a b = Ok q -> b <> 0 /\ q = a / b.
Proof.
  unfold py_div; intros H; r_cases; [discriminate |].
  injection H as <-; split; [assumption | reflexivity].
Qed.

Lemma py_pow_pos (x y : R) : 0 < x -> py_pow x y = Ok (PyFloat (Rpower x y)).
Proof.
  intros H; unfold py_pow.
  rewrite Reqb_false by lra. now rewrite Rltb_true.
Qed.

Lemma py_pow_zero (y : R) : 0 < y -> py_pow 0 y = Ok (PyFloat 0).
Proof.
  intros H; unfold py_pow.
  rewrite Reqb_true by reflexivity. now rewrite Rltb_true.
Qed.

(** On a base [x >= 0], [x ** y] with [y > 0] is the specification's
    power. *)
Lemma py_pow_nonneg (x y : R) :
  0 <= x -> 0 < y -> py_pow x y = Ok (PyFloat (real_pow x y)).
Proof.
  intros Hx Hy; unfold real_pow; destruct (Req_dec_T x 0) as [-> | Hne].
  - now apply py_pow_zero.
  - apply py_pow_pos; lra.
Qed.

Lemma third_not_integer : is_integer (1 / 3) = false.
Proof.
  unfold is_integer; apply Reqb_false; intros H.
  assert (H3 : IZR (3 * Int_part (1 / 3)) = IZR 1).
  { rewrite mult_IZR, H; field. }
  apply eq_IZR in H3.
  assert (Hdiv : (3 * Int_part (1 / 3) mod 3 = 1 mod 3)%Z) by now rewrite H3.
  rewrite Z.mul_comm, Z.mod_mul in Hdiv by discriminate.
  discriminate Hdiv.
Qed.

(** A negative base to the power [1/3] is a complex number. *)
Lemma py_pow_third_neg (x : R) :
  x < 0 -> exists re im, py_pow x (1 / 3) = Ok (PyComplex re im).
Proof.
  intros H; unfold py_pow.
  rewrite Reqb_false by lra. rewrite Rltb_false by lra.
  rewrite third_not_integer. eauto.
Qed.

(** [x ** (1/3)] is a float exactly on a base [x >= 0]. *)
Lemma py_pow_third_float (x v : R) :
  py_pow x (1 / 3) = Ok (PyFloat v) -> 0 <= x /\ v = real_pow x (1 / 3).
Proof.
  intros H; destruct (Rlt_le_dec x 0) as [Hneg | Hpos].
  - destruct (py_pow_third_neg x Hneg) as (re & im & E).
    rewrite E in H; discriminate.
  - rewrite py_pow_nonneg in H by lra.
    injection H as <-; split; [assumption | reflexivity].
Qed.

Lemma py_min_float (x y : R) : py_min (PyFloat x) (PyFloat y) = Ok (Rmin x y).
Proof.
  unfold py_min, Rmin; r_cases; f_equal; lra.
Qed.

Lemma py_max_float (x y : R) : py_max (PyFloat x) (PyFloat y) = Ok (Rmax x y).
Proof.
  unfold py_max, Rmax; r_cases; f_equal; lra.
Qed.

Lemma py_min_Ok_inv (a b : pynum) (m : R) :
  py_min a b = Ok m ->
  exists x y, a = PyFloat x /\ b = PyFloat y /\ m = Rmin x y.
Proof.
  destruct a as [x | ? ?], b as [y | ? ?]; simpl; try discriminate.
  intros H; exists x, y. fold (py_min (PyFloat x) (PyFloat y)) in H.
  rewrite py_min_float in H. injection H as <-; auto.
Qed.

Lemma py_max_Ok_inv (a b : pynum) (m : R) :
  py_max a b = Ok m ->
  exists x y, a = PyFloat x /\ b = PyFloat y /\ m = Rmax x y.
Proof.
  destruct a as [x | ? ?], b as [y | ? ?]; simpl; try discriminate.
  intros H; exists x, y. fold (py_max (PyFloat x) (PyFloat y)) in H.
  rewrite py_max_float in H. injection H as <-; auto.
Qed.

(** A product or a sum that is a float has float operands. *)
Lemma py_mul_float_inv (a b : pynum) (v : R) :
  a *! b = PyFloat v -> exists x y, a = PyFloat x /\ b = PyFloat y /\ v = x * y.
Proof.
  destruct a as [x | ? ?], b as [y | ? ?]; simpl; try discriminate.
  intros H; injection H as <-; eauto.
Qed.

Lemma py_add_float_inv (a b : pynum) (v : R) :
  a +! b = PyFloat v -> exists x y, a = PyFloat x /\ b = PyFloat y /\ v = x + y.
Proof.
  destruct a as [x | ? ?], b as [y | ? ?]; simpl; try discriminate.
  intros H; injection H as <-; eauto.
Qed.

Lemma Ok_inj {A : Type} (a b : A) : Ok a = Ok b -> a = b.
Proof. intros H; now injection H. Qed.

Lemma bind_Ok_inv {A B : Type} (c : result A) (k : A -> result B) (b : B) :
  bind c k = Ok b -> exists a, c = Ok a /\ k a = Ok b.
Proof. destruct c as [a | e]; simpl; [eauto | discriminate]. Qed.

(** ** Formula primitives *)

Lemma fyd_invalid (fy gamma_s : R) :
  fy <= 0 \/ gamma_s < 1 -> exists m, fyd fy gamma_s = Raise (ValueError m).
Proof.
  intros H; unfold fyd, raise_if, py_div.
  destruct (Rle_lt_dec fy 0) as [Hfy | Hfy].
  - rewrite Rleb_true by assumption; simpl; eauto.
  - rewrite Rleb_false by assumption; simpl.
    rewrite Rltb_true by lra; simpl; eauto.
Qed.

Lemma fyd_valid (fy gamma_s : R) :
  0 < fy -> 1 <= gamma_s -> fyd fy gamma_s = Ok (fy / gamma_s).
Proof.
  intros Hfy Hg; unfold fyd, raise_if.
  rewrite Rleb_false by assumption; simpl.
  rewrite Rltb_false by assumption; simpl.
  apply py_div_ok; lra.
Qed.

(** [fud] is [fyd] up to the text of the first message. *)
Lemma fud_invalid (fu gamma_s : R) :
  fu <= 0 \/ gamma_s < 1 -> exists m, fud fu gamma_s = Raise (ValueError m).
Proof.
  intros H; unfold fud, raise_if, py_div.
  destruct (Rle_lt_dec fu 0) as [Hfu | Hfu].
  - rewrite Rleb_true by assumption; simpl; eauto.
  - rewrite Rleb_false by assumption; simpl.
    rewrite Rltb_true by lra; simpl; eauto.
Qed.

Lemma fud_valid (fu gamma_s : R) :
  0 < fu -> 1 <= gamma_s -> fud fu gamma_s = Ok (fu / gamma_s).
Proof.
  intros Hfu Hg; unfold fud, raise_if.
  rewrite Rleb_false by assumption; simpl.
  rewrite Rltb_false by assumption; simpl.
  apply py_div_ok; lra.
Qed.

(** C9. [fyd(fy, gamma_s)] and [fud(fu, gamma_s)] raise a [ValueError]
    if and only if the strength is [<= 0] or [gamma_s < 1]; on those
    inputs no value is returned; on every other input they return exactly
    the quotient [fy / gamma_s] (respectively [fu / gamma_s]). *)
Theorem fyd_fud_validation (x gamma_s : R) :
  ((exists m, fyd x gamma_s = Raise (ValueError m)) <->
     (x <= 0 \/ gamma_s < 1)) /\
  ((exists m, fud x gamma_s = Raise (ValueError m)) <->
     (x <= 0 \/ gamma_s < 1)) /\
  (x <= 0 \/ gamma_s < 1 ->
     forall v, fyd x gamma_s <> Ok v /\ fud x gamma_s <> Ok v) /\
  (~ (x <= 0 \/ gamma_s < 1) ->
     fyd x gamma_s = Ok (x / gamma_s) /\ fud x gamma_s = Ok (x / gamma_s)).
Proof.
  assert (Hvalid : ~ (x <= 0 \/ gamma_s < 1) -> 0 < x /\ 1 <= gamma_s).
  { intros H; split; lra. }
  repeat split.
  - intros [m Hm]. destruct (Rle_lt_dec x 0); [now left |].
    destruct (Rlt_le_dec gamma_s 1); [now right |].
    rewrite fyd_valid in Hm by assumption; discriminate.
  - apply fyd_invalid.
  - intros [m Hm]. destruct (Rle_lt_dec x 0); [now left |].
    destruct (Rlt_le_dec gamma_s 1); [now right |].
    rewrite fud_valid in Hm by assumption; discriminate.
  - apply fud_invalid.
  - destruct (fyd_invalid x gamma_s H) as [m ->]; discriminate.
  - destruct (fud_invalid x gamma_s H) as [m ->]; discriminate.
  - apply fyd_valid; apply Hvalid; assumption.
  - apply fud_valid; apply Hvalid; assumption.
Qed.

Lemma Ec_in_range (f_c w_c : R) :
  0 <= f_c -> 90 <= w_c <= 160 ->
  Ec f_c w_c = Ok (PyFloat (33 * Rpower w_c (15 / 10) * sqrt f_c)).
Proof.
  intros Hf [Hlo Hhi]; unfold Ec.
  rewrite !Rleb_true by assumption; simpl.
  rewrite py_pow_pos by lra; simpl.
  rewrite math_sqrt_ok by assumption; reflexivity.
Qed.

Lemma Ec_out_of_range (f_c w_c : R) :
  0 <= f_c -> ~ (90 <= w_c <= 160) ->
  Ec f_c w_c = Ok (PyFloat (57000 * sqrt f_c)).
Proof.
  intros Hf Hw; unfold Ec.
  assert (E : Rleb 90 w_c && Rleb w_c 160 = false).
  { destruct (Rle_lt_dec 90 w_c); [| now rewrite Rleb_false].
    rewrite (Rleb_false w_c 160) by lra. apply andb_false_r. }
  rewrite E, math_sqrt_ok by assumption; reflexivity.
Qed.

Lemma Ec_negative (f_c w_c : R) :
  f_c < 0 -> Ec f_c w_c = Raise (ValueError (Msg "math domain error")).
Proof.
  intros Hf; unfold Ec.
  destruct (Rleb 90 w_c && Rleb w_c 160) eqn:E.
  - apply andb_prop in E as [E1 E2].
    unfold Rleb in E1; destruct (Rle_dec 90 w_c); [| discriminate].
    rewrite py_pow_pos by lra; simpl.
    now rewrite math_sqrt_neg.
  - now rewrite math_sqrt_neg.
Qed.

Lemma Rpower_pos (x y : R) : 0 < Rpower x y.
Proof. unfold Rpower; apply exp_pos. Qed.

(** C8. For [f_c > 0]: with [90 <= w_c <= 160], [Ec] is
    [33 * w_c^1.5 * sqrt f_c], strictly increasing in [f_c] and, over
    that range, in [w_c]; with [w_c] outside [[90, 160]], [Ec] is
    [57000 * sqrt f_c], whatever [w_c] is. *)
Theorem Ec_formula_monotone (f_c w_c : R) :
  0 < f_c ->
  (90 <= w_c <= 160 ->
     Ec f_c w_c = Ok (PyFloat (33 * Rpower w_c (15 / 10) * sqrt f_c)) /\
     (forall f_c', f_c < f_c' ->
        exists e e', Ec f_c w_c = Ok (PyFloat e) /\
                     Ec f_c' w_c = Ok (PyFloat e') /\ e < e') /\
     (forall w_c', w_c < w_c' <= 160 ->
        exists e e', Ec f_c w_c = Ok (PyFloat e) /\
                     Ec f_c w_c' = Ok (PyFloat e') /\ e < e')) /\
  (~ (90 <= w_c <= 160) ->
     Ec f_c w_c = Ok (PyFloat (57000 * sqrt f_c)) /\
     (forall w_c', ~ (90 <= w_c' <= 160) -> Ec f_c w_c' = Ec f_c w_c)).
Proof.
  intros Hf; split.
  - intros Hw; split; [apply Ec_in_range; lra |]; split.
    + intros f_c' Hlt. do 2 eexists.
      split; [apply Ec_in_range; lra |].
      split; [apply Ec_in_range; lra |].
      assert (Hs : sqrt f_c < sqrt f_c') by (apply sqrt_lt_1; lra).
      pose proof (Rpower_pos w_c (15 / 10)) as Hp.
      apply Rmult_lt_compat_l; [lra | assumption].
    + intros w_c' Hlt. do 2 eexists.
      split; [apply Ec_in_range; lra |].
      split; [apply Ec_in_range; lra |].
      assert (Hp : Rpower w_c (15 / 10) < Rpower w_c' (15 / 10)).
      { apply Rlt_Rpower_l; lra. }
      pose proof (sqrt_lt_R0 f_c Hf) as Hs.
      apply Rmult_lt_compat_r; [assumption | lra].
  - intros Hw; split; [apply Ec_out_of_range; [lra | assumption] |].
    intros w_c' Hw'. rewrite !Ec_out_of_range by (assumption || lra).
    reflexivity.
Qed.

Lemma Ec_formula_monotone_witness :
  0 < 4000 /\
  Ec 4000 145 = Ok (PyFloat (33 * Rpower 145 (15 / 10) * sqrt 4000)) /\
  Ec 4000 200 = Ok (PyFloat (57000 * sqrt 4000)).
Proof.
  assert (H : 0 < 4000) by lra.
  split; [exact H |]. split.
  - apply (proj1 (Ec_formula_monotone 4000 145 H)); lra.
  - apply (proj2 (Ec_formula_monotone 4000 200 H)); lra.
Defined.

Lemma f_r_nonneg (f_c lambda_ : R) :
  0 <= f_c -> f_r f_c lambda_ = Ok (lambda_ * (75 / 10) * sqrt f_c).
Proof. intros H; unfold f_r; now rewrite math_sqrt_ok. Qed.

Lemma f_r_negative (f_c lambda_ : R) :
  f_c < 0 -> f_r f_c lambda_ = Raise (ValueError (Msg "math domain error")).
Proof. intros H; unfold f_r; now rewrite math_sqrt_neg. Qed.

Lemma Ec_zero (w_c : R) : Ec 0 w_c = Ok (PyFloat 0).
Proof.
  destruct (Rle_lt_dec 90 w_c) as [Hlo | Hlo];
    [destruct (Rle_lt_dec w_c 160) as [Hhi | Hhi] |].
  - rewrite Ec_in_range by lra. rewrite sqrt_0. do 2 f_equal; ring.
  - rewrite Ec_out_of_range by lra. rewrite sqrt_0. do 2 f_equal; ring.
  - rewrite Ec_out_of_range by lra. rewrite sqrt_0. do 2 f_equal; ring.
Qed.

(** C7, as the code has it.  For [f_c = 0], [Ec] and [f_r] return zero;
    for [f_c < 0] both fail: [math.sqrt] raises
    [ValueError: math domain error], and no value (NaN or other) is
    returned. *)
Theorem Ec_f_r_nonpositive_fc (f_c w_c lambda_ : R) :
  f_c <= 0 ->
  (f_c = 0 -> Ec f_c w_c = Ok (PyFloat 0) /\ f_r f_c lambda_ = Ok 0) /\
  (f_c < 0 ->
     Ec f_c w_c = Raise (ValueError (Msg "math domain error")) /\
     f_r f_c lambda_ = Raise (ValueError (Msg "math domain error"))).
Proof.
  intros _; split.
  - intros ->; split; [apply Ec_zero |].
    rewrite f_r_nonneg by lra. rewrite sqrt_0. f_equal; ring.
  - intros H; split; [now apply Ec_negative | now apply f_r_negative].
Qed.

Lemma Ec_f_r_nonpositive_fc_witness :
  (Ec 0 145 = Ok (PyFloat 0) /\ f_r 0 1 = Ok 0) /\
  (Ec (-4000) 145 = Raise (ValueError (Msg "math domain error")) /\
   f_r (-4000) 1 = Raise (ValueError (Msg "math domain error"))).
Proof.
  split.
  - apply (Ec_f_r_nonpositive_fc 0 145 1); [lra | reflexivity].
  - apply (Ec_f_r_nonpositive_fc (-4000) 145 1); lra.
Defined.

(** C7 as stated fails at [f_c = -1]: [Ec(-1, 145)] and [f_r(-1, 1.0)]
    raise instead of returning a degenerate number. *)
Lemma Ec_f_r_negative_fc_raise :
  Ec (-1) 145 = Raise (ValueError (Msg "math domain error")) /\
  f_r (-1) 1 = Raise (ValueError (Msg "math domain error")) /\
  (forall v, Ec (-1) 145 <> Ok v) /\ (forall v, f_r (-1) 1 <> Ok v).
Proof.
  assert (E1 := Ec_negative (-1) 145 ltac:(lra)).
  assert (E2 := f_r_negative (-1) 1 ltac:(lra)).
  repeat split; try assumption.
  - intros v; rewrite E1; discriminate.
  - intros v; rewrite E2; discriminate.
Qed.

(** ** The shear engine *)

(** Quotients by a positive number against a bound. *)
Lemma quotient_bounds (a t : R) :
  0 < t -> (t <= a -> 1 <= a / t) /\ (a <= t -> a / t <= 1).
Proof.
  intros Ht.
  assert (Hi : 0 < / t) by now apply Rinv_0_lt_compat.
  assert (E : t * / t = 1) by (apply Rinv_r; lra).
  unfold Rdiv; split; intros H; nra.
Qed.

Lemma quotient_lt (a t b : R) : 0 < t -> a / t < b -> a < b * t.
Proof.
  intros Ht H.
  apply Rmult_lt_compat_r with (r := t) in H; [| assumption].
  unfold Rdiv in H. rewrite Rmult_assoc, Rinv_l in H by lra. lra.
Qed.

Lemma quotient_lt_r (a t b : R) : 0 < t -> a < b * t -> a / t < b.
Proof.
  intros Ht H.
  apply Rmult_lt_reg_r with t; [assumption |].
  unfold Rdiv. rewrite Rmult_assoc, Rinv_l by lra. lra.
Qed.

Lemma lambda_s_spec_unfold (d : R) :
  -10 < d -> 0 < 2 / (1 + d / 10).
Proof.
  intros H. apply Rdiv_lt_0_compat; lra.
Qed.

Lemma size_effect_factor_ok (d : R) :
  -10 < d -> size_effect_factor d = Ok (lambda_s_spec d).
Proof.
  intros H; unfold size_effect_factor.
  rewrite py_div_ok by lra; simpl.
  rewrite math_sqrt_ok by (apply Rlt_le, lambda_s_spec_unfold, H); simpl.
  apply py_min_float.
Qed.

(** Whenever the factor is computed, it is the specification's. *)
Lemma size_effect_factor_Ok_inv (d l : R) :
  size_effect_factor d = Ok l -> l = lambda_s_spec d.
Proof.
  unfold size_effect_factor; intros H.
  apply bind_Ok_inv in H as (q & Hq & H).
  apply bind_Ok_inv in H as (s & Hs & H).
  apply py_div_Ok_inv in Hq as [_ ->].
  apply math_sqrt_Ok_inv in Hs as [_ ->].
  rewrite py_min_float in H. now injection H as <-.
Qed.

Lemma lambda_s_spec_range (d : R) : -10 < d -> 0 < lambda_s_spec d <= 1.
Proof.
  intros H; unfold lambda_s_spec; split.
  - apply Rmin_glb_lt; [| lra].
    apply sqrt_lt_R0, lambda_s_spec_unfold, H.
  - apply Rmin_r.
Qed.

Lemma lambda_s_spec_shallow (d : R) :
  -10 < d <= 10 -> lambda_s_spec d = 1.
Proof.
  intros [Hlo Hhi]; unfold lambda_s_spec.
  apply Rmin_right. rewrite <- sqrt_1 at 1.
  apply sqrt_le_1; [lra | apply Rlt_le, lambda_s_spec_unfold, Hlo |].
  apply quotient_bounds; lra.
Qed.

Lemma lambda_s_spec_deep (d : R) :
  10 <= d -> lambda_s_spec d = sqrt (2 / (1 + d / 10)).
Proof.
  intros H; unfold lambda_s_spec.
  apply Rmin_left. rewrite <- sqrt_1 at 2.
  apply sqrt_le_1; [apply Rlt_le, lambda_s_spec_unfold; lra | lra |].
  apply quotient_bounds; lra.
Qed.

Lemma size_quotient_decreasing (d d' : R) :
  -10 < d -> d < d' -> 2 / (1 + d' / 10) < 2 / (1 + d / 10).
Proof.
  intros H Hlt. unfold Rdiv at 1 3.
  apply Rmult_lt_compat_l; [lra |].
  apply Rinv_lt_contravar; [| lra].
  apply Rmult_lt_0_compat; lra.
Qed.

Lemma lambda_s_spec_decreasing (d d' : R) :
  10 <= d -> d < d' -> lambda_s_spec d' < lambda_s_spec d.
Proof.
  intros H Hlt. rewrite !lambda_s_spec_deep by lra.
  apply sqrt_lt_1.
  - apply Rlt_le, lambda_s_spec_unfold; lra.
  - apply Rlt_le, lambda_s_spec_unfold; lra.
  - apply size_quotient_decreasing; lra.
Qed.

(** Beyond [d = 20 / eps^2] the factor is below [eps]. *)
Lemma lambda_s_spec_small (eps d : R) :
  0 < eps -> 0 < d -> 20 / (eps * eps) < d -> lambda_s_spec d < eps.
Proof.
  intros Heps Hd Hbig. unfold lambda_s_spec.
  apply Rle_lt_trans with (sqrt (2 / (1 + d / 10))); [apply Rmin_l |].
  assert (Hee : 0 < eps * eps) by (apply Rmult_lt_0_compat; lra).
  apply Rlt_le_trans with (sqrt (eps * eps));
    [| rewrite sqrt_square; lra].
  apply sqrt_lt_1; [apply Rlt_le, lambda_s_spec_unfold; lra | lra |].
  assert (Hd20 : 20 < d * (eps * eps)).
  { apply quotient_lt in Hbig; [lra | assumption]. }
  apply quotient_lt_r; lra.
Qed.

Lemma lambda_s_spec_10 : lambda_s_spec 10 = 1.
Proof. apply lambda_s_spec_shallow; lra. Qed.

Lemma lambda_s_spec_40 : 632 / 1000 < lambda_s_spec 40 < 633 / 1000.
Proof.
  rewrite lambda_s_spec_deep by lra.
  replace (2 / (1 + 40 / 10)) with (4 / 10) by field.
  split.
  - apply Rle_lt_trans with (sqrt (632 / 1000 * (632 / 1000)));
      [rewrite sqrt_square; lra |].
    apply sqrt_lt_1; lra.
  - apply Rlt_le_trans with (sqrt (633 / 1000 * (633 / 1000)));
      [| rewrite sqrt_square; lra].
    apply sqrt_lt_1; lra.
Qed.

(** The axial term never fails: a truthy [Ag] is a non-zero divisor. *)
Lemma axial_term_total (f_c Nu : R) (Ag : option R) :
  axial_term f_c Nu Ag = Ok (Nu_term_spec f_c Nu Ag).
Proof.
  unfold axial_term, Nu_term_spec. destruct Ag as [ag |]; [| reflexivity].
  destruct (Req_dec_T Nu 0) as [HNu | HNu].
  - now rewrite (truthy_false Nu HNu).
  - rewrite (truthy_true Nu HNu); simpl.
    destruct (Req_dec_T ag 0) as [Hag | Hag].
    + now rewrite (truthy_false ag Hag).
    + rewrite (truthy_true ag Hag), py_div_ok by lra; simpl.
      apply py_min_float.
Qed.

Lemma axial_term_no_load (f_c : R) (Ag : option R) :
  axial_term f_c 0 Ag = Ok 0.
Proof.
  unfold axial_term. destruct Ag; [| reflexivity].
  now rewrite truthy_false.
Qed.

(** A float result of the branch with minimum reinforcement is the
    maximum of the two candidates. *)
Lemma Vc_with_min_reinf_float (f_c bw d a lambda_concrete : R) (v : pynum) :
  Vc_with_min_reinf f_c bw d a lambda_concrete = Ok v ->
  0 <= f_c /\ bw * d <> 0 /\ 0 <= a / (bw * d) /\
  v = PyFloat (Rmax (Vc_a_spec f_c bw d lambda_concrete)
                    (Vc_b_spec f_c bw d a lambda_concrete)).
Proof.
  unfold Vc_with_min_reinf; intros H.
  apply bind_Ok_inv in H as (s & Hs & H).
  apply bind_Ok_inv in H as (rho & Hrho & H).
  apply bind_Ok_inv in H as (p & Hp & H).
  apply bind_Ok_inv in H as (s' & Hs' & H).
  apply bind_Ok_inv in H as (m & Hm & H).
  apply math_sqrt_Ok_inv in Hs as [Hf ->].
  apply math_sqrt_Ok_inv in Hs' as [_ ->].
  apply py_div_Ok_inv in Hrho as [Hbd ->].
  apply py_max_Ok_inv in Hm as (x & y & Hx & Hy & ->).
  injection Hx as <-.
  apply py_mul_float_inv in Hy as (y1 & ? & Hy & Hd & ->).
  apply py_mul_float_inv in Hy as (y2 & ? & Hy & Hbw & ->).
  apply py_mul_float_inv in Hy as (y3 & ? & Hy & Hsq & ->).
  apply py_mul_float_inv in Hy as (y4 & pv & Hy & -> & ->).
  injection Hy as <-; injection Hbw as <-; injection Hsq as <-.
  injection Hd as <-.
  apply py_pow_third_float in Hp as [Hrho ->].
  injection H as <-. repeat split; assumption.
Qed.

(** A float result of the branch without minimum reinforcement is the
    formula with the size-effect factor. *)
Lemma Vc_without_min_reinf_float (f_c bw d : R) (Av_min : option R)
    (lambda_concrete lambda_s v : R) :
  Vc_without_min_reinf f_c bw d Av_min lambda_concrete lambda_s
    = Ok (PyFloat v) ->
  0 <= f_c /\ 0 <= rho_w_spec bw d Av_min /\
  v = 8 * lambda_s * lambda_concrete
        * real_pow (rho_w_spec bw d Av_min) (1 / 3) * sqrt f_c * bw * d.
Proof.
  unfold Vc_without_min_reinf; intros H.
  apply bind_Ok_inv in H as (rho_w & Hrho & H).
  apply bind_Ok_inv in H as (p & Hp & H).
  apply bind_Ok_inv in H as (s & Hs & H).
  apply math_sqrt_Ok_inv in Hs as [Hf ->].
  apply Ok_inj in H.
  apply py_mul_float_inv in H as (y1 & ? & Hy & Hd & ->).
  apply py_mul_float_inv in Hy as (y2 & ? & Hy & Hbw & ->).
  apply py_mul_float_inv in Hy as (y3 & ? & Hy & Hsq & ->).
  apply py_mul_float_inv in Hy as (y4 & pv & Hy & -> & ->).
  injection Hy as <-; injection Hbw as <-; injection Hsq as <-.
  injection Hd as <-.
  apply py_pow_third_float in Hp as [Hpos ->].
  assert (E : rho_w = rho_w_spec bw d Av_min).
  { unfold rho_w_spec. destruct Av_min as [a |]; [| now injection Hrho].
    destruct (Req_dec_T a 0) as [Ha | Ha].
    - rewrite (truthy_false a Ha) in Hrho. now injection Hrho.
    - rewrite (truthy_true a Ha) in Hrho.
      now apply py_div_Ok_inv in Hrho as [_ ->]. }
  rewrite <- E. repeat split; assumption.
Qed.

(** Step 2 against the specification: a float value of [Vc_table] is
    [Vc_step2_spec]. *)
Lemma Vc_table_float (f_c bw d : R) (Av_min : option R)
    (lambda_concrete v : R) :
  Vc_table f_c bw d Av_min lambda_concrete (lambda_s_spec d)
    = Ok (PyFloat v) ->
  v = Vc_step2_spec f_c bw d Av_min lambda_concrete.
Proof.
  unfold Vc_table, Vc_step2_spec; intros H.
  destruct Av_min as [a |].
  - unfold Rleb in H. destruct (Rle_dec 0 a).
    + apply Vc_with_min_reinf_float in H as (_ & _ & _ & H).
      now injection H.
    + now apply Vc_without_min_reinf_float in H as (_ & _ & H).
  - now apply Vc_without_min_reinf_float in H as (_ & _ & H).
Qed.

(** What a returned dictionary holds. *)
Lemma calc_shear_strength_Ok_inv (f_c bw d Nu : R) (Ag Av_min : option R)
    (lambda_concrete : R) (phi0 : option R) (res : shear_strength) :
  calc_shear_strength f_c bw d Nu Ag Av_min lambda_concrete phi0 = Ok res ->
  exists v : R,
    truthy Nu && is_None Ag = false /\
    size_effect_factor d = Ok (lambda_s_spec d) /\
    Vc_table f_c bw d Av_min lambda_concrete (lambda_s_spec d)
      = Ok (PyFloat v) /\
    0 <= f_c /\
    let Vc' := Rmin (v + Nu_term_spec f_c Nu Ag * bw * d)
                    (Vc_max_spec f_c bw d lambda_concrete) in
    let phi' := match phi0 with Some p => p | None => 75 / 100 end in
    res = mk_shear_strength Vc' (phi' * Vc') phi' (lambda_s_spec d).
Proof.
  unfold calc_shear_strength; intros H.
  apply bind_Ok_inv in H as ([] & Hchk & H).
  apply bind_Ok_inv in H as (ls & Hls & H).
  apply bind_Ok_inv in H as (v & Hv & H).
  apply bind_Ok_inv in H as (nu & Hnu & H).
  apply bind_Ok_inv in H as (s & Hs & H).
  apply bind_Ok_inv in H as (m & Hm & H).
  pose proof (size_effect_factor_Ok_inv d ls Hls) as ->.
  rewrite axial_term_total in Hnu; injection Hnu as <-.
  apply math_sqrt_Ok_inv in Hs as [Hf ->].
  apply py_min_Ok_inv in Hm as (x & y & Hx & Hy & ->).
  injection Hy as <-.
  apply py_add_float_inv in Hx as (v' & t & -> & Ht & ->).
  injection Ht as <-.
  exists v'. repeat split; try assumption.
  - unfold raise_if in Hchk.
    destruct (truthy Nu && is_None Ag); [discriminate | reflexivity].
  - now injection H as <-.
Qed.

Lemma Vc_with_min_reinf_ok (f_c bw d a lambda_concrete : R) :
  0 <= f_c -> 0 < bw * d -> 0 <= a ->
  Vc_with_min_reinf f_c bw d a lambda_concrete
    = Ok (PyFloat (Rmax (Vc_a_spec f_c bw d lambda_concrete)
                        (Vc_b_spec f_c bw d a lambda_concrete))).
Proof.
  intros Hf Hbd Ha; unfold Vc_with_min_reinf.
  rewrite math_sqrt_ok by assumption; cbn [bind].
  rewrite py_div_ok by lra; cbn [bind].
  rewrite py_pow_nonneg by (try lra; now apply Rle_mult_inv_pos).
  cbn [bind py_mul]. rewrite py_max_float. reflexivity.
Qed.

Lemma Vc_without_min_reinf_None (f_c bw d lambda_concrete lambda_s : R) :
  0 <= f_c ->
  Vc_without_min_reinf f_c bw d None lambda_concrete lambda_s
    = Ok (PyFloat (8 * lambda_s * lambda_concrete
                     * real_pow (rho_w_spec bw d None) (1 / 3)
                     * sqrt f_c * bw * d)).
Proof.
  intros Hf; unfold Vc_without_min_reinf; simpl.
  rewrite py_pow_nonneg by lra; simpl.
  rewrite math_sqrt_ok by assumption; reflexivity.
Qed.

Lemma Vc_table_ok (f_c bw d : R) (Av_min : option R) (lambda_concrete : R) :
  0 <= f_c -> 0 < bw * d -> (forall a, Av_min = Some a -> 0 <= a) ->
  Vc_table f_c bw d Av_min lambda_concrete (lambda_s_spec d)
    = Ok (PyFloat (Vc_step2_spec f_c bw d Av_min lambda_concrete)).
Proof.
  intros Hf Hbd Ha; unfold Vc_table, Vc_step2_spec.
  destruct Av_min as [a |].
  - specialize (Ha a eq_refl). rewrite Rleb_true by assumption.
    destruct (Rle_dec 0 a); [| contradiction].
    now apply Vc_with_min_reinf_ok.
  - now apply Vc_without_min_reinf_None.
Qed.

(** The function returns on every physically meaningful input. *)
Lemma calc_shear_strength_returns (f_c bw d Nu : R) (Ag Av_min : option R)
    (lambda_concrete : R) (phi0 : option R) :
  0 <= f_c -> 0 < bw -> 0 < d ->
  (forall a, Av_min = Some a -> 0 <= a) ->
  (Nu <> 0 -> Ag <> None) ->
  let Vc' := Rmin (Vc_step2_spec f_c bw d Av_min lambda_concrete
                     + Nu_term_spec f_c Nu Ag * bw * d)
                  (Vc_max_spec f_c bw d lambda_concrete) in
  let phi' := match phi0 with Some p => p | None => 75 / 100 end in
  calc_shear_strength f_c bw d Nu Ag Av_min lambda_concrete phi0
    = Ok (mk_shear_strength Vc' (phi' * Vc') phi' (lambda_s_spec d)).
Proof.
  intros Hf Hbw Hd Ha HAg; unfold calc_shear_strength.
  assert (Hchk : truthy Nu && is_None Ag = false).
  { destruct Ag; [apply andb_false_r |].
    destruct (Req_dec_T Nu 0) as [H0 | H0].
    - now rewrite (truthy_false Nu H0).
    - now destruct (HAg H0). }
  rewrite Hchk; cbn [raise_if bind].
  rewrite size_effect_factor_ok by lra; cbn [bind].
  rewrite Vc_table_ok by (try assumption; now apply Rmult_lt_0_compat).
  cbn [bind].
  rewrite axial_term_total; cbn [bind py_add].
  rewrite math_sqrt_ok by assumption; cbn [bind].
  rewrite py_min_float; reflexivity.
Qed.

(** C1. Whenever [calc_shear_strength] returns, the [Vc] it returns is at
    most [5 * lambda_concrete * sqrt(f_c) * bw * d], whichever branch
    computed it and whatever the axial term added. *)
Theorem Vc_never_exceeds_limit (f_c bw d Nu : R) (Ag Av_min : option R)
    (lambda_concrete : R) (phi0 : option R) (res : shear_strength) :
  calc_shear_strength f_c bw d Nu Ag Av_min lambda_concrete phi0 = Ok res ->
  Vc res <= 5 * lambda_concrete * sqrt f_c * bw * d.
Proof.
  intros H.
  apply calc_shear_strength_Ok_inv in H as (v & _ & _ & _ & _ & ->).
  simpl. apply Rmin_r.
Qed.

(** A beam [12 x 20] of [f_c = 4000] under an axial load, with and
    without minimum reinforcement. *)
Lemma Vc_never_exceeds_limit_witness :
  (exists res,
     calc_shear_strength 4000 12 20 50000 (Some 288) (Some 240) 1 None
       = Ok res /\
     Vc res <= 5 * 1 * sqrt 4000 * 12 * 20) /\
  (exists res,
     calc_shear_strength 4000 12 20 0 None None 1 None = Ok res /\
     Vc res <= 5 * 1 * sqrt 4000 * 12 * 20).
Proof.
  split.
  - assert (E := calc_shear_strength_returns
                   4000 12 20 50000 (Some 288) (Some 240) 1 None
                   ltac:(lra) ltac:(lra) ltac:(lra)
                   ltac:(intros a Ha; injection Ha as <-; lra)
                   ltac:(discriminate)).
    eexists; split; [exact E |].
    exact (Vc_never_exceeds_limit _ _ _ _ _ _ _ _ _ E).
  - assert (E := calc_shear_strength_returns
                   4000 12 20 0 None None 1 None
                   ltac:(lra) ltac:(lra) ltac:(lra)
                   ltac:(discriminate) ltac:(lra)).
    eexists; split; [exact E |].
    exact (Vc_never_exceeds_limit _ _ _ _ _ _ _ _ _ E).
Defined.

(** *** The input check *)

Lemma not_the_check_bind {A B : Type} (c : result A) (k : A -> result B) :
  not_the_check c -> (forall a, not_the_check (k a)) ->
  not_the_check (bind c k).
Proof.
  unfold not_the_check; intros Hc Hk.
  destruct c as [a | e]; simpl; [apply Hk |].
  intros H; apply Hc; injection H as ->; reflexivity.
Qed.

Lemma not_the_check_Ok {A : Type} (a : A) : not_the_check (Ok a).
Proof. discriminate. Qed.

Lemma not_the_check_sqrt (x : R) : not_the_check (math_sqrt x).
Proof. unfold not_the_check, math_sqrt, Ag_required; r_cases; discriminate. Qed.

Lemma not_the_check_div (a b : R) : not_the_check (py_div a b).
Proof. unfold not_the_check, py_div; r_cases; discriminate. Qed.

Lemma not_the_check_pow (x y : R) : not_the_check (py_pow x y).
Proof.
  unfold not_the_check, py_pow.
  repeat match goal with
         | |- context [if ?b then _ else _] => destruct b
         end; discriminate.
Qed.

Lemma not_the_check_min (a b : pynum) : not_the_check (py_min a b).
Proof. destruct a, b; discriminate. Qed.

Lemma not_the_check_max (a b : pynum) : not_the_check (py_max a b).
Proof. destruct a, b; discriminate. Qed.

Create HintDb check.
#[local] Hint Resolve not_the_check_Ok not_the_check_sqrt not_the_check_div
  not_the_check_pow not_the_check_min not_the_check_max : check.

Ltac no_check :=
  repeat (apply not_the_check_bind; [| intros ?]); auto with check.

Lemma not_the_check_size_effect (d : R) :
  not_the_check (size_effect_factor d).
Proof. unfold size_effect_factor; no_check. Qed.

Lemma not_the_check_Vc_table (f_c bw d : R) (Av_min : option R)
    (lambda_concrete lambda_s : R) :
  not_the_check (Vc_table f_c bw d Av_min lambda_concrete lambda_s).
Proof.
  assert (Hwo : forall o,
             not_the_check
               (Vc_without_min_reinf f_c bw d o lambda_concrete lambda_s)).
  { intros o; unfold Vc_without_min_reinf; no_check.
    destruct o as [a |]; [destruct (truthy a) |]; auto with check. }
  unfold Vc_table. destruct Av_min as [a |]; [| apply Hwo].
  destruct (Rleb 0 a); [| apply Hwo].
  unfold Vc_with_min_reinf; no_check.
Qed.

(** Past the input check, no failure is the check's. *)
Lemma calc_shear_strength_past_check (f_c bw d Nu : R)
    (Ag Av_min : option R) (lambda_concrete : R) (phi0 : option R) :
  truthy Nu && is_None Ag = false ->
  not_the_check
    (calc_shear_strength f_c bw d Nu Ag Av_min lambda_concrete phi0).
Proof.
  intros Hchk; unfold calc_shear_strength. rewrite Hchk; cbn [raise_if bind].
  apply not_the_check_bind; [apply not_the_check_size_effect | intros ls].
  apply not_the_check_bind; [apply not_the_check_Vc_table | intros v].
  apply not_the_check_bind;
    [rewrite axial_term_total; apply not_the_check_Ok | intros nu].
  no_check.
Qed.

(** C3. [calc_shear_strength] raises
    [ValueError('Ag must be provided if Nu is not zero.')] exactly when
    [Nu != 0] and [Ag] is [None]; nothing is returned then; and with
    [Nu = 0] the result is the same whether [Ag] is omitted or given. *)
Theorem Ag_required_iff (f_c bw d Nu : R) (Ag Av_min : option R)
    (lambda_concrete : R) (phi0 : option R) :
  (calc_shear_strength f_c bw d Nu Ag Av_min lambda_concrete phi0
     = Raise Ag_required <-> (Nu <> 0 /\ Ag = None)) /\
  (Nu <> 0 /\ Ag = None ->
     forall res,
       calc_shear_strength f_c bw d Nu Ag Av_min lambda_concrete phi0
         <> Ok res) /\
  (forall ag,
     calc_shear_strength f_c bw d 0 None Av_min lambda_concrete phi0
       = calc_shear_strength f_c bw d 0 (Some ag) Av_min lambda_concrete
           phi0) /\
  calc_shear_strength f_c bw d 0 None Av_min lambda_concrete phi0
    <> Raise Ag_required.
Proof.
  assert (Hfail : Nu <> 0 /\ Ag = None ->
            calc_shear_strength f_c bw d Nu Ag Av_min lambda_concrete phi0
              = Raise Ag_required).
  { intros [HNu ->]. unfold calc_shear_strength.
    now rewrite (truthy_true Nu HNu). }
  repeat split.
  - destruct (Req_dec_T Nu 0) as [H0 | H0].
    + exfalso. revert H. apply calc_shear_strength_past_check.
      now rewrite (truthy_false Nu H0).
    + assumption.
  - destruct Ag as [ag |]; [| reflexivity].
    exfalso. revert H. apply calc_shear_strength_past_check.
    apply andb_false_r.
  - exact Hfail.
  - intros H res. rewrite (Hfail H). discriminate.
  - intros ag. unfold calc_shear_strength.
    rewrite !axial_term_no_load. now rewrite (truthy_false 0 eq_refl).
  - apply calc_shear_strength_past_check.
    now rewrite (truthy_false 0 eq_refl).
Qed.

(** *** The size-effect factor *)

(** C4, as the code has it.  For [d > 0] the factor returned is
    [min(sqrt(2 / (1 + d/10)), 1)]; it lies in [(0, 1]]; it is [1] up to
    [d = 10], strictly decreasing from [d = 10] on, and tends to [0] (not
    to [1]) as [d] grows; [d = 10] gives [1] and [d = 40] gives about
    [0.632]. *)
Theorem size_effect_factor_spec (d : R) :
  0 < d ->
  (forall f_c bw Nu Ag Av_min lambda_concrete phi0 res,
     calc_shear_strength f_c bw d Nu Ag Av_min lambda_concrete phi0 = Ok res ->
     lambda_s res = Rmin (sqrt (2 / (1 + d / 10))) 1) /\
  (forall f_c bw lambda_concrete phi0,
     0 <= f_c -> 0 < bw ->
     exists res,
       calc_shear_strength f_c bw d 0 None None lambda_concrete phi0
         = Ok res) /\
  size_effect_factor d = Ok (Rmin (sqrt (2 / (1 + d / 10))) 1) /\
  0 < lambda_s_spec d <= 1 /\
  (d <= 10 -> lambda_s_spec d = 1) /\
  (forall d', 10 <= d -> d < d' -> lambda_s_spec d' < lambda_s_spec d) /\
  (forall eps, 0 < eps ->
     exists D, forall d', 0 < d' -> D < d' -> lambda_s_spec d' < eps) /\
  lambda_s_spec 10 = 1 /\
  632 / 1000 < lambda_s_spec 40 < 633 / 1000.
Proof.
  intros Hd. repeat apply conj.
  - intros f_c bw Nu Ag Av_min lambda_concrete phi0 res H.
    apply calc_shear_strength_Ok_inv in H as (v & _ & _ & _ & _ & ->).
    reflexivity.
  - intros f_c bw lambda_concrete phi0 Hf Hbw. eexists.
    apply calc_shear_strength_returns; try assumption; [discriminate | lra].
  - apply size_effect_factor_ok; lra.
  - apply lambda_s_spec_range; lra.
  - apply lambda_s_spec_range; lra.
  - intros H; apply lambda_s_spec_shallow; lra.
  - intros d' H Hlt; now apply lambda_s_spec_decreasing.
  - intros eps Heps. exists (20 / (eps * eps)).
    intros d' Hd' Hbig. now apply lambda_s_spec_small.
  - exact lambda_s_spec_10.
  - apply lambda_s_spec_40.
  - apply lambda_s_spec_40.
Qed.

Lemma size_effect_factor_spec_witness :
  0 < 40 /\
  size_effect_factor 40 = Ok (Rmin (sqrt (2 / (1 + 40 / 10))) 1) /\
  0 < lambda_s_spec 40 <= 1.
Proof.
  assert (H : 0 < 40) by lra.
  split; [exact H |].
  split; apply (size_effect_factor_spec 40 H).
Defined.

(** C4 as stated fails: the factor does not approach [1] for large [d].
    At [d = 1990] it is [0.1].  Beyond [d = 70] it stays below [1/2], on every input on which the
    function returns. *)
Lemma size_effect_factor_not_to_one :
  size_effect_factor 1990 = Ok (1 / 10) /\
  ~ (forall eps, 0 < eps ->
       exists D, forall d res,
         D < d ->
         calc_shear_strength 4000 12 d 0 None None 1 None = Ok res ->
         Rabs (lambda_s res - 1) < eps).
Proof.
  split.
  { rewrite size_effect_factor_ok, lambda_s_spec_deep by lra.
    replace (2 / (1 + 1990 / 10)) with (1 / 10 * (1 / 10)) by field.
    now rewrite sqrt_square by lra. }
  intros Hlim. destruct (Hlim (1 / 2) ltac:(lra)) as [D HD].
  set (d := Rmax D 0 + 71).
  assert (Hd : D < d /\ 71 <= d).
  { unfold d. pose proof (Rmax_l D 0). pose proof (Rmax_r D 0). lra. }
  destruct Hd as [HDd Hd70].
  assert (E := calc_shear_strength_returns 4000 12 d 0 None None 1 None
                 ltac:(lra) ltac:(lra) ltac:(lra)
                 ltac:(discriminate) ltac:(lra)).
  specialize (HD d _ HDd E). cbn [lambda_s] in HD.
  assert (Hsmall : lambda_s_spec d <= 1 / 2).
  { rewrite lambda_s_spec_deep by lra.
    apply Rle_trans with (sqrt (1 / 2 * (1 / 2)));
      [| rewrite sqrt_square; lra].
    apply sqrt_le_1; [apply Rlt_le, lambda_s_spec_unfold; lra | lra |].
    apply Rlt_le, quotient_lt_r; lra. }
  unfold Rabs in HD. destruct (Rcase_abs (lambda_s_spec d - 1)); lra.
Qed.

(** *** Omitted and zero minimum reinforcement *)

Lemma real_pow_0 (y : R) : real_pow 0 y = 0.
Proof. unfold real_pow; destruct (Req_dec_T 0 0); [reflexivity | lra]. Qed.

Lemma Nu_term_spec_no_load (f_c : R) (Ag : option R) :
  Nu_term_spec f_c 0 Ag = 0.
Proof.
  unfold Nu_term_spec. destruct Ag; [| reflexivity].
  destruct (Req_dec_T 0 0); [reflexivity | lra].
Qed.

Lemma Vc_step2_spec_None (f_c bw d lambda_concrete : R) :
  Vc_step2_spec f_c bw d None lambda_concrete = 0.
Proof. unfold Vc_step2_spec, rho_w_spec. rewrite real_pow_0. ring. Qed.

Lemma Vc_step2_spec_zero (f_c bw d lambda_concrete : R) :
  Vc_step2_spec f_c bw d (Some 0) lambda_concrete
    = Rmax (2 * lambda_concrete * sqrt f_c * bw * d) 0.
Proof.
  unfold Vc_step2_spec, Vc_a_spec, Vc_b_spec.
  destruct (Rle_dec 0 0); [| lra].
  replace (0 / (bw * d)) with 0 by (unfold Rdiv; ring).
  rewrite real_pow_0. f_equal; ring.
Qed.

(** With no axial load: what is returned when [Av_min] is omitted, and
    when it is [0]. *)
Lemma calc_shear_strength_Av_min_None (f_c bw d : R) (Ag : option R)
    (lambda_concrete : R) (phi0 : option R) :
  0 <= f_c -> 0 < bw -> 0 < d ->
  let Vc' := Rmin 0 (5 * lambda_concrete * sqrt f_c * bw * d) in
  let phi' := match phi0 with Some p => p | None => 75 / 100 end in
  calc_shear_strength f_c bw d 0 Ag None lambda_concrete phi0
    = Ok (mk_shear_strength Vc' (phi' * Vc') phi' (lambda_s_spec d)).
Proof.
  intros Hf Hbw Hd. cbv zeta.
  rewrite calc_shear_strength_returns
    by first [assumption | discriminate | lra].
  rewrite Vc_step2_spec_None, Nu_term_spec_no_load. unfold Vc_max_spec.
  replace (0 + 0 * bw * d) with 0 by ring. reflexivity.
Qed.

Lemma calc_shear_strength_Av_min_zero (f_c bw d : R) (Ag : option R)
    (lambda_concrete : R) (phi0 : option R) :
  0 <= f_c -> 0 < bw -> 0 < d ->
  let Vc' := Rmin (Rmax (2 * lambda_concrete * sqrt f_c * bw * d) 0)
                  (5 * lambda_concrete * sqrt f_c * bw * d) in
  let phi' := match phi0 with Some p => p | None => 75 / 100 end in
  calc_shear_strength f_c bw d 0 Ag (Some 0) lambda_concrete phi0
    = Ok (mk_shear_strength Vc' (phi' * Vc') phi' (lambda_s_spec d)).
Proof.
  intros Hf Hbw Hd. cbv zeta.
  rewrite calc_shear_strength_returns
    by first [assumption | lra | intros a Ha; injection Ha as <-; lra].
  rewrite Vc_step2_spec_zero, Nu_term_spec_no_load. unfold Vc_max_spec.
  replace (0 * bw * d) with 0 by ring. rewrite Rplus_0_r. reflexivity.
Qed.

(** The section term [sqrt(f_c) * bw * d] is positive. *)
Lemma section_term_pos (f_c bw d : R) :
  0 < f_c -> 0 < bw -> 0 < d -> 0 < sqrt f_c * bw * d.
Proof.
  intros Hf Hbw Hd. pose proof (sqrt_lt_R0 f_c Hf).
  repeat apply Rmult_lt_0_compat; assumption.
Qed.

(** C10, as the code has it.  For [f_c > 0], [bw > 0], [d > 0] and a
    factor [lambda_concrete >= 0], with [Nu = 0]: omitting [Av_min]
    returns [Vc = 0] and [Vn = 0]; [Av_min = 0] returns
    [Vc = 2 * lambda_concrete * sqrt(f_c) * bw * d]; the two results
    differ as soon as [lambda_concrete > 0]. *)
Theorem Av_min_omitted_vs_zero (f_c bw d : R) (Ag : option R)
    (lambda_concrete : R) (phi0 : option R) :
  0 < f_c -> 0 < bw -> 0 < d -> 0 <= lambda_concrete ->
  (exists res,
     calc_shear_strength f_c bw d 0 Ag None lambda_concrete phi0 = Ok res /\
     Vc res = 0 /\ Vn res = 0) /\
  (exists res,
     calc_shear_strength f_c bw d 0 Ag (Some 0) lambda_concrete phi0
       = Ok res /\
     Vc res = 2 * lambda_concrete * sqrt f_c * bw * d) /\
  (0 < lambda_concrete ->
     calc_shear_strength f_c bw d 0 Ag None lambda_concrete phi0
       <> calc_shear_strength f_c bw d 0 Ag (Some 0) lambda_concrete phi0).
Proof.
  intros Hf Hbw Hd Hl.
  pose proof (section_term_pos f_c bw d Hf Hbw Hd) as Hs.
  assert (Hcap : 0 <= 5 * lambda_concrete * sqrt f_c * bw * d) by nra.
  assert (Ha : 0 <= 2 * lambda_concrete * sqrt f_c * bw * d) by nra.
  assert (E0 : Rmin 0 (5 * lambda_concrete * sqrt f_c * bw * d) = 0)
    by now apply Rmin_left.
  assert (E1 : Rmin (Rmax (2 * lambda_concrete * sqrt f_c * bw * d) 0)
                 (5 * lambda_concrete * sqrt f_c * bw * d)
               = 2 * lambda_concrete * sqrt f_c * bw * d).
  { rewrite Rmax_left by assumption. apply Rmin_left; nra. }
  rewrite calc_shear_strength_Av_min_None by lra.
  rewrite calc_shear_strength_Av_min_zero by lra.
  rewrite E0, E1. repeat split.
  - eexists; split; [reflexivity |]. cbn [Vc Vn]. split; [reflexivity | ring].
  - eexists; split; [reflexivity |]. reflexivity.
  - intros Hpos H. apply Ok_inj in H.
    apply (f_equal Vc) in H; cbn [Vc] in H. nra.
Qed.

Lemma Av_min_omitted_vs_zero_witness :
  (exists res,
     calc_shear_strength 4000 12 20 0 None None 1 None = Ok res /\
     Vc res = 0 /\ Vn res = 0) /\
  (exists res,
     calc_shear_strength 4000 12 20 0 None (Some 0) 1 None = Ok res /\
     Vc res = 2 * 1 * sqrt 4000 * 12 * 20) /\
  calc_shear_strength 4000 12 20 0 None None 1 None
    <> calc_shear_strength 4000 12 20 0 None (Some 0) 1 None.
Proof.
  destruct (Av_min_omitted_vs_zero 4000 12 20 None 1 None
              ltac:(lra) ltac:(lra) ltac:(lra) ltac:(lra))
    as (H1 & H2 & H3).
  split; [exact H1 |]. split; [exact H2 |]. apply H3; lra.
Defined.

Lemma sqrt_4 : sqrt 4 = 2.
Proof. replace 4 with (2 * 2) by ring. apply sqrt_square; lra. Qed.

(** C10 as stated fails when [lambda_concrete] is not positive.  On the
    section [f_c = 4], [bw = 1], [d = 10] with [Nu = 0]: for
    [lambda_concrete = -1] omitting [Av_min] returns [Vc = -100], not
    [0], and so does [Av_min = 0]; for [lambda_concrete = 0] both calls
    return the same dictionary. *)
Lemma Av_min_omitted_vs_zero_nonpositive_lambda :
  calc_shear_strength 4 1 10 0 None None (-1) None
    = Ok (mk_shear_strength (-100) (-75) (75 / 100) 1) /\
  calc_shear_strength 4 1 10 0 None (Some 0) (-1) None
    = Ok (mk_shear_strength (-100) (-75) (75 / 100) 1) /\
  calc_shear_strength 4 1 10 0 None None 0 None
    = Ok (mk_shear_strength 0 0 (75 / 100) 1) /\
  calc_shear_strength 4 1 10 0 None (Some 0) 0 None
    = Ok (mk_shear_strength 0 0 (75 / 100) 1).
Proof.
  rewrite !calc_shear_strength_Av_min_None by lra.
  rewrite !calc_shear_strength_Av_min_zero by lra.
  rewrite lambda_s_spec_10, sqrt_4.
  replace (5 * -1 * 2 * 1 * 10) with (-100) by ring.
  replace (2 * -1 * 2 * 1 * 10) with (-40) by ring.
  replace (5 * 0 * 2 * 1 * 10) with 0 by ring.
  replace (2 * 0 * 2 * 1 * 10) with 0 by ring.
  rewrite (Rmax_right (-40) 0) by lra.
  rewrite (Rmin_right 0 (-100)) by lra.
  rewrite (Rmax_left 0 0), (Rmin_left 0 0) by lra.
  repeat split; f_equal; f_equal; lra.
Qed.

(** ** The concrete facade *)

Lemma derived_eqb_eq (p q : derived) : derived_eqb p q = true <-> p = q.
Proof. destruct p, q; simpl; split; congruence. Qed.

Lemma backing_store_same (p : derived) (v : option pynum)
    (c : ConcreteACI318_19) :
  backing p (store p v c) = v.
Proof. now destruct p. Qed.

Lemma backing_store_other (p q : derived) (v : option pynum)
    (c : ConcreteACI318_19) :
  derived_eqb p q = false -> backing p (store q v c) = backing p c.
Proof. destruct p, q; simpl; congruence. Qed.

Lemma store_backing (p : derived) (c : ConcreteACI318_19) :
  store p (backing p c) c = c.
Proof. now destruct p, c. Qed.

Lemma truthy_num_stored (p : derived) (v : R) :
  v <> 0 -> truthy_num (stored p v) = true.
Proof.
  intros Hv. destruct p; simpl; apply truthy_true; try assumption;
    unfold py_abs; now apply Rabs_no_R0.
Qed.

Section FacadeFacts.

Variable aci318_19_fct : option R -> result pynum.
Variable aci318_19_eps_cu : option R -> result pynum.

Local Abbreviation getF := (get aci318_19_fct aci318_19_eps_cu).
Local Abbreviation computeF := (compute aci318_19_fct aci318_19_eps_cu).
Local Abbreviation stepF := (step aci318_19_fct aci318_19_eps_cu).
Local Abbreviation runF := (run aci318_19_fct aci318_19_eps_cu).

(** The backing field decides a read: a value that is there (and, for
    [eps_cu], truthy) is returned as it is, and the instance and the log
    stay as they were. *)
Lemma get_held (p : derived) (v : pynum) (w : world) :
  backing p (self w) = Some v ->
  (p = D_eps_cu -> truthy_num v = true) ->
  getF p w = (Ok v, w).
Proof.
  intros Hb Ht. destruct p; unfold get; rewrite Hb.
  - reflexivity.
  - reflexivity.
  - rewrite (Ht eq_refl). rewrite <- Hb, store_backing. now destruct w.
Qed.

(** A computation for [q] touches the backing field of [q] only and logs
    one call for [q]. *)
Lemma compute_frame (p q : derived) (w : world) :
  derived_eqb p q = false ->
  backing p (self (snd (computeF q w))) = backing p (self w) /\
  calls_for p (snd (computeF q w)) = calls_for p w.
Proof.
  intros Hpq. unfold compute, calls_for.
  destruct (primitive _ _ q (_fc (self w))); cbn [snd self calls filter];
    rewrite Hpq; split; auto using backing_store_other.
Qed.

Lemma compute_logs (p : derived) (w : world) :
  calls (snd (computeF p w)) = p :: calls w.
Proof.
  unfold compute.
  now destruct (primitive _ _ p (_fc (self w))).
Qed.

Lemma get_frame (p q : derived) (w : world) :
  derived_eqb p q = false ->
  backing p (self (snd (getF q w))) = backing p (self w) /\
  calls_for p (snd (getF q w)) = calls_for p w.
Proof.
  intros Hpq. pose proof (compute_frame p q w Hpq) as Hc.
  unfold get. destruct q.
  - destruct (backing D_Ec (self w)); [split; reflexivity | exact Hc].
  - destruct (backing D_fct (self w)); [split; reflexivity | exact Hc].
  - destruct (backing D_eps_cu (self w)) as [v |]; [| exact Hc].
    destruct (truthy_num v); [| exact Hc].
    cbn [snd self]. split; [| reflexivity].
    now apply backing_store_other.
Qed.

Lemma set_frame (p q : derived) (value : R) (w : world) :
  derived_eqb p q = false ->
  backing p (self (set q value w)) = backing p (self w) /\
  calls_for p (set q value w) = calls_for p w.
Proof.
  intros Hpq. destruct q; cbn [set self]; split;
    auto using backing_store_other.
Qed.

Lemma set_backing (p : derived) (value : R) (w : world) :
  backing p (self (set p value w)) = Some (stored p value) /\
  calls (set p value w) = calls w.
Proof. destruct p; cbn [set self]; split; reflexivity. Qed.

(** One operation that does not write [p] keeps a held value of [p] and
    makes no call for [p]. *)
Lemma step_keeps (p : derived) (v : pynum) (o : op) (w : world) :
  writes p o = false ->
  backing p (self w) = Some v ->
  (p = D_eps_cu -> truthy_num v = true) ->
  backing p (self (stepF o w)) = Some v /\
  calls_for p (stepF o w) = calls_for p w.
Proof.
  intros Hw Hb Ht. destruct o as [q | q value]; cbn [step].
  - destruct (derived_eqb p q) eqn:Hpq.
    + apply derived_eqb_eq in Hpq as <-.
      rewrite (get_held p v w Hb Ht). now split.
    + destruct (get_frame p q w Hpq) as [-> ->]. now split.
  - cbn [writes] in Hw.
    destruct (set_frame p q value w Hw) as [-> ->]. now split.
Qed.

Lemma run_keeps (p : derived) (v : pynum) (ops : list op) (w : world) :
  no_write p ops = true ->
  backing p (self w) = Some v ->
  (p = D_eps_cu -> truthy_num v = true) ->
  backing p (self (runF ops w)) = Some v /\
  calls_for p (runF ops w) = calls_for p w.
Proof.
  intros Hops Hb Ht. revert w Hb.
  induction ops as [| o ops IH]; intros w Hb; [now split |].
  cbn [no_write forallb] in Hops. apply andb_prop in Hops as [Ho Hops].
  apply negb_true_iff in Ho.
  destruct (step_keeps p v o w Ho Hb Ht) as [Hb' Hc'].
  cbn [run fold_left].
  destruct (IH Hops _ Hb') as [Hb'' Hc'']. split; [exact Hb'' |].
  unfold run in Hc''. now rewrite Hc''.
Qed.

(** An override that the getter sees (any value for [Ec] and [fct], a
    non-zero one for [eps_cu]) is absorbing: through any operations that
    do not write the property again, a read returns the stored value,
    changes nothing and calls the code module for it no more. *)
Lemma override_absorbing (p : derived) (value : R) (ops : list op)
    (w : world) :
  (p = D_eps_cu -> value <> 0) ->
  no_write p ops = true ->
  let w' := runF ops (set p value w) in
  getF p w' = (Ok (stored p value), w') /\
  calls_for p w' = calls_for p w.
Proof.
  intros Hv Hops w'.
  destruct (set_backing p value w) as [Hb Hc].
  assert (Ht : p = D_eps_cu -> truthy_num (stored p value) = true).
  { intros E. apply truthy_num_stored, Hv, E. }
  destruct (run_keeps p _ ops _ Hops Hb Ht) as [Hb' Hc'].
  split; [now apply get_held |].
  unfold w'. rewrite Hc'. unfold calls_for. now rewrite Hc.
Qed.

End FacadeFacts.

(** C5 at the input on which the code departs from it.  After
    [eps_cu = 0] the next read of [eps_cu] does not return the override:
    the stored [0] is falsy, the getter calls [aci318_19.eps_cu(self._fc)],
    logs that call, returns its result and, when there is one, stores it
    over the override. *)
Theorem eps_cu_zero_override_recomputed
    (aci318_19_fct aci318_19_eps_cu : option R -> result pynum) (w : world) :
  let w0 := set D_eps_cu 0 w in
  let r := get aci318_19_fct aci318_19_eps_cu D_eps_cu w0 in
  backing D_eps_cu (self w0) = Some (PyFloat 0) /\
  fst r = aci318_19_eps_cu (_fc (self w)) /\
  calls (snd r) = D_eps_cu :: calls w /\
  (forall v, aci318_19_eps_cu (_fc (self w)) = Ok v ->
     backing D_eps_cu (self (snd r)) = Some v) /\
  (forall ops,
     no_write D_Ec ops = true ->
     fst (get aci318_19_fct aci318_19_eps_cu D_Ec
            (run aci318_19_fct aci318_19_eps_cu ops (set D_Ec 0 w)))
       = Ok (PyFloat 0)).
Proof.
  assert (E : get aci318_19_fct aci318_19_eps_cu D_eps_cu (set D_eps_cu 0 w)
              = compute aci318_19_fct aci318_19_eps_cu D_eps_cu
                  (set D_eps_cu 0 w)).
  { unfold get. cbn [set self backing store _eps_cu].
    assert (Hz : truthy_num (PyFloat 0) = false)
      by (apply truthy_false; reflexivity).
    now rewrite Hz. }
  cbv zeta. rewrite E. unfold compute.
  repeat apply conj.
  - reflexivity.
  - cbn [set primitive self store _fc calls].
    now destruct (aci318_19_eps_cu (_fc (self w))).
  - cbn [set primitive self store _fc calls].
    now destruct (aci318_19_eps_cu (_fc (self w))).
  - cbn [set primitive self store _fc calls].
    intros v ->. reflexivity.
  - intros ops Hops.
    destruct (override_absorbing aci318_19_fct aci318_19_eps_cu
                D_Ec 0 ops w ltac:(discriminate) Hops) as [-> _].
    cbn [fst stored]. unfold py_abs. now rewrite Rabs_R0.
Qed.

(** C6, as the code has it.  For [Ec] and [fct] an override stores
    [abs(value)]: every later read returns it, so a negative [value]
    reads back as [-value].  For [eps_cu] the override is stored
    unchanged, sign included, and a non-zero one is what every later
    read returns. *)
Theorem override_stores_abs_except_eps_cu
    (aci318_19_fct aci318_19_eps_cu : option R -> result pynum)
    (p : derived) (value : R) (ops : list op) (w : world) :
  (p = D_eps_cu -> value <> 0) ->
  no_write p ops = true ->
  let r := get aci318_19_fct aci318_19_eps_cu p
             (run aci318_19_fct aci318_19_eps_cu ops (set p value w)) in
  fst r = Ok (match p with
              | D_Ec | D_fct => PyFloat (Rabs value)
              | D_eps_cu => PyFloat value
              end) /\
  (p <> D_eps_cu -> value < 0 -> fst r = Ok (PyFloat (- value))).
Proof.
  intros Hv Hops.
  destruct (override_absorbing aci318_19_fct aci318_19_eps_cu
              p value ops w Hv Hops) as [E _].
  cbv zeta in *. rewrite E. cbn [fst]. split.
  - now destruct p.
  - intros Hp Hneg. destruct p; try contradiction; cbn [stored];
      unfold py_abs; now rewrite Rabs_left.
Qed.

Lemma override_stores_abs_except_eps_cu_witness :
  fst (get sample_fct sample_eps_cu D_Ec
         (run sample_fct sample_eps_cu [Read D_Ec; Read D_eps_cu]
            (set D_Ec (-5000000) C4000)))
    = Ok (PyFloat (Rabs (-5000000))) /\
  fst (get sample_fct sample_eps_cu D_eps_cu
         (run sample_fct sample_eps_cu [Read D_fct; Write D_Ec 1]
            (set D_eps_cu (-3 / 1000) C4000)))
    = Ok (PyFloat (-3 / 1000)).
Proof.
  split.
  - apply (override_stores_abs_except_eps_cu sample_fct sample_eps_cu
             D_Ec (-5000000) [Read D_Ec; Read D_eps_cu] C4000).
    + discriminate.
    + reflexivity.
  - apply (override_stores_abs_except_eps_cu sample_fct sample_eps_cu
             D_eps_cu (-3 / 1000) [Read D_fct; Write D_Ec 1] C4000).
    + intros _; lra.
    + reflexivity.
Defined.

(** C6 as stated fails for [eps_cu]: after [eps_cu = -0.003] on
    [ConcreteACI318_19(fc=4000)] a read returns [-0.003], not [0.003]. *)
Lemma eps_cu_override_keeps_sign :
  fst (get sample_fct sample_eps_cu D_eps_cu
         (set D_eps_cu (-3 / 1000) C4000))
    = Ok (PyFloat (-3 / 1000)) /\
  PyFloat (-3 / 1000) <> PyFloat (Rabs (-3 / 1000)).
Proof.
  split.
  - pose proof (truthy_num_stored D_eps_cu (-3 / 1000) ltac:(lra)) as Ht.
    cbn [stored] in Ht.
    unfold get. cbn [set self backing store _eps_cu C4000].
    rewrite Ht. reflexivity.
  - intros H. injection H as H. rewrite Rabs_left in H; lra.
Qed.

(** ** Further properties of the specification *)

(** X1. The returned [Vn] is [phi * Vc] for the returned [phi] and [Vc],
    and the returned [phi] is the one supplied, or [0.75]. *)
Theorem Vn_is_phi_Vc (f_c bw d Nu : R) (Ag Av_min : option R)
    (lambda_concrete : R) (phi0 : option R) (res : shear_strength) :
  calc_shear_strength f_c bw d Nu Ag Av_min lambda_concrete phi0 = Ok res ->
  Vn res = phi res * Vc res /\
  phi res = match phi0 with Some p => p | None => 75 / 100 end.
Proof.
  intros H.
  apply calc_shear_strength_Ok_inv in H as (v & _ & _ & _ & _ & ->).
  split; reflexivity.
Qed.

Lemma Vn_is_phi_Vc_witness :
  exists res,
    calc_shear_strength 4000 12 20 50000 (Some 288) (Some 240) 1 (Some (9 / 10))
      = Ok res /\
    Vn res = phi res * Vc res /\ phi res = 9 / 10.
Proof.
  assert (E := calc_shear_strength_returns
                 4000 12 20 50000 (Some 288) (Some 240) 1 (Some (9 / 10))
                 ltac:(lra) ltac:(lra) ltac:(lra)
                 ltac:(intros a Ha; injection Ha as <-; lra)
                 ltac:(discriminate)).
  eexists; split; [exact E |].
  exact (Vn_is_phi_Vc _ _ _ _ _ _ _ _ _ E).
Defined.

(** X4. An override that the getter sees is absorbing: for [Ec] and
    [fct] with any value, and for [eps_cu] with a non-zero value, through
    any later operations that do not write the property again, a read
    returns the stored override, changes nothing, and the number of
    calls into the code module for that property stays what it was
    before the override. *)
Theorem override_never_recomputed
    (aci318_19_fct aci318_19_eps_cu : option R -> result pynum)
    (p : derived) (value : R) (ops : list op) (w : world) :
  (p = D_eps_cu -> value <> 0) ->
  no_write p ops = true ->
  let w' := run aci318_19_fct aci318_19_eps_cu ops (set p value w) in
  get aci318_19_fct aci318_19_eps_cu p w' = (Ok (stored p value), w') /\
  calls_for p w' = calls_for p w.
Proof. apply override_absorbing. Qed.

Lemma override_never_recomputed_witness :
  let w' := run sample_fct sample_eps_cu
              [Read D_fct; Read D_Ec; Write D_fct 3; Read D_eps_cu]
              (set D_Ec 5000000 C4000) in
  get sample_fct sample_eps_cu D_Ec w' = (Ok (stored D_Ec 5000000), w') /\
  calls_for D_Ec w' = calls_for D_Ec C4000.
Proof.
  apply (override_never_recomputed sample_fct sample_eps_cu D_Ec 5000000
           [Read D_fct; Read D_Ec; Write D_fct 3; Read D_eps_cu] C4000).
  - discriminate.
  - reflexivity.
Defined.

(** ** Exposure classes *)

Lemma upper_ascii_idempotent (c : ascii) :
  upper_ascii (upper_ascii c) = upper_ascii c.
Proof. destruct c as [[] [] [] [] [] [] [] []]; reflexivity. Qed.

Lemma upper_lower_ascii (c : ascii) :
  upper_ascii (lower_ascii c) = upper_ascii c.
Proof. destruct c as [[] [] [] [] [] [] [] []]; reflexivity. Qed.

Lemma upper_idempotent (s : string) : upper (upper s) = upper s.
Proof.
  induction s as [| c s IH]; [reflexivity |].
  cbn [upper]. now rewrite upper_ascii_idempotent, IH.
Qed.

Lemma upper_lower (s : string) : upper (lower s) = upper s.
Proof.
  induction s as [| c s IH]; [reflexivity |].
  cbn [upper lower]. now rewrite upper_lower_ascii, IH.
Qed.

Lemma upper_length (s : string) : String.length (upper s) = String.length s.
Proof. induction s as [| c s IH]; [reflexivity |]. cbn. now rewrite IH. Qed.

(** X5. The lookup of an exposure class ignores the case of its
    argument; it returns the requirements of [XC1] or [XC2] exactly for
    the spellings of those two names, and [None], without an error, for
    every other string (three characters are necessary); every record
    returned asks for at least 300 of cement and at most 0.65 of
    water/cement ratio. *)
Theorem exposure_class_lookup (s : string) :
  exposure_class_requirements (lower s) = exposure_class_requirements s /\
  exposure_class_requirements (upper s) = exposure_class_requirements s /\
  (upper s = "XC1"%string <->
     exposure_class_requirements s = Some (mk_requirement 300 (65 / 100))) /\
  (upper s = "XC2"%string <->
     exposure_class_requirements s = Some (mk_requirement 320 (60 / 100))) /\
  (upper s <> "XC1"%string /\ upper s <> "XC2"%string <->
     exposure_class_requirements s = None) /\
  (String.length s <> 3%nat -> exposure_class_requirements s = None) /\
  (forall r, exposure_class_requirements s = Some r ->
     (300 <= min_cement_content r)%Z /\ max_w_c_ratio r <= 65 / 100).
Proof.
  unfold exposure_class_requirements.
  rewrite upper_lower, upper_idempotent.
  assert (Hne : mk_requirement 300 (65 / 100)
                <> mk_requirement 320 (60 / 100)).
  { intros H. apply (f_equal min_cement_content) in H. discriminate H. }
  cbn [dict_get requirements].
  destruct (String.eqb_spec "XC1" (upper s)) as [E1 | E1];
    [| destruct (String.eqb_spec "XC2" (upper s)) as [E2 | E2]].
  - rewrite <- E1. repeat apply conj; intros; try reflexivity;
      try discriminate; try tauto; try congruence.
    + elim H. now rewrite <- (upper_length s), <- E1.
    + injection H as <-. cbn. split; [lia | lra].
  - rewrite <- E2. repeat apply conj; intros; try reflexivity;
      try discriminate; try tauto; try congruence.
    + elim H. now rewrite <- (upper_length s), <- E2.
    + injection H as <-. cbn. split; [lia | lra].
  - repeat apply conj; intros; try reflexivity; try discriminate;
      try tauto; try congruence.
    split; congruence.
Qed.

(** ** More on [Ec] and [f_r] *)

(** [w ** 1.5] is [w * sqrt w]. *)
Lemma Rpower_three_halves (w : R) :
  0 < w -> Rpower w (15 / 10) = w * sqrt w.
Proof.
  intros Hw. replace (15 / 10) with (1 + / 2) by field.
  now rewrite Rpower_plus, Rpower_1, Rpower_sqrt.
Qed.

(** A square root between two bounds given by their squares. *)
Lemma sqrt_between (lo hi x : R) :
  0 <= lo -> lo * lo <= x <= hi * hi -> 0 <= hi -> lo <= sqrt x <= hi.
Proof.
  intros Hlo [H1 H2] Hhi.
  assert (Hx : 0 <= x) by nra.
  split.
  - rewrite <- (sqrt_square lo) by assumption. apply sqrt_le_1; nra.
  - rewrite <- (sqrt_square hi) by assumption. apply sqrt_le_1; nra.
Qed.

Lemma three_halves_increasing (w w' : R) :
  0 < w -> w <= w' -> w * sqrt w <= w' * sqrt w'.
Proof.
  intros Hw Hle.
  assert (Hs : sqrt w <= sqrt w') by (apply sqrt_le_1; lra).
  pose proof (sqrt_pos w). nra.
Qed.

(** X6. Over all unit weights [Ec] is not monotone: for [f_c > 0] a
    weight outside [[90, 160]] (lighter than 90 included) gives a larger
    modulus than every weight in [[90, 143]], and a smaller one than
    every weight in [[144, 160]], so the modulus drops when the weight
    passes 160. *)
Theorem Ec_not_monotone_across_range (f_c w w_in : R) :
  0 < f_c -> ~ (90 <= w <= 160) -> 90 <= w_in <= 160 ->
  exists e e_in,
    Ec f_c w = Ok (PyFloat e) /\ Ec f_c w_in = Ok (PyFloat e_in) /\
    (w_in <= 143 -> e_in < e) /\ (144 <= w_in -> e < e_in).
Proof.
  intros Hf Hw Hin.
  rewrite (Ec_out_of_range f_c w) by (lra || assumption).
  rewrite (Ec_in_range f_c w_in) by lra.
  rewrite Rpower_three_halves by lra.
  do 2 eexists. split; [reflexivity |]. split; [reflexivity |].
  pose proof (sqrt_lt_R0 f_c Hf) as Hs.
  split; intros Hb.
  - assert (H143 : w_in * sqrt w_in <= 143 * sqrt 143)
      by (apply three_halves_increasing; lra).
    assert (Hsq : sqrt 143 <= 1196 / 100).
    { apply (sqrt_between 0 (1196 / 100) 143); lra. }
    apply Rmult_lt_compat_r; [assumption | lra].
  - assert (H144 : 144 * sqrt 144 <= w_in * sqrt w_in)
      by (apply three_halves_increasing; lra).
    assert (Hsq : sqrt 144 = 12).
    { replace 144 with (12 * 12) by ring. apply sqrt_square; lra. }
    apply Rmult_lt_compat_r; [assumption | lra].
Qed.

Lemma Ec_not_monotone_across_range_witness :
  exists e e_in,
    Ec 4000 89 = Ok (PyFloat e) /\ Ec 4000 90 = Ok (PyFloat e_in) /\
    e_in < e.
Proof.
  destruct (Ec_not_monotone_across_range 4000 89 90
              ltac:(lra) ltac:(lra) ltac:(lra))
    as (e & e_in & H1 & H2 & H3 & _).
  exists e, e_in. split; [exact H1 |]. split; [exact H2 |].
  apply H3; lra.
Defined.

(** ** The tests of the material properties *)

(** A value within one hundredth of a positive expected value is close
    to it. *)
Lemma math_isclose_percent (x expected : R) :
  0 <= expected ->
  99 / 100 * expected <= x <= 101 / 100 * expected ->
  math_isclose x expected (1 / 100) = true.
Proof.
  intros He [Hlo Hhi]. unfold math_isclose. apply Rleb_true.
  apply Rle_trans with (1 / 100 * Rmax (Rabs x) (Rabs expected));
    [| apply Rmax_l].
  apply Rle_trans with (1 / 100 * Rabs expected).
  - rewrite (Rabs_right expected) by lra.
    apply Rabs_le. lra.
  - apply Rmult_le_compat_l; [lra | apply Rmax_r].
Qed.

Lemma sqrt_4000 : 632 / 10 <= sqrt 4000 <= 633 / 10.
Proof. apply sqrt_between; lra. Qed.

Lemma sqrt_5000 : 707 / 10 <= sqrt 5000 <= 708 / 10.
Proof. apply sqrt_between; lra. Qed.

Lemma sqrt_145 : 1204 / 100 <= sqrt 145 <= 1205 / 100.
Proof. apply sqrt_between; lra. Qed.

Lemma sqrt_120 : 1095 / 100 <= sqrt 120 <= 1096 / 100.
Proof. apply sqrt_between; lra. Qed.

(** X8. Every case of [test_Ec] passes: on each parameter tuple [Ec]
    returns a float within the relative tolerance [1e-2] of the expected
    value. *)
Theorem test_Ec_passes :
  Forall (fun c => test_Ec (fst (fst c)) (snd (fst c)) (snd c) = Ok true)
         test_Ec_cases.
Proof.
  pose proof sqrt_4000. pose proof sqrt_5000.
  pose proof sqrt_145. pose proof sqrt_120.
  unfold test_Ec_cases.
  repeat constructor; cbn [fst snd]; unfold test_Ec;
    rewrite Ec_in_range by lra; cbn [bind];
    rewrite Rpower_three_halves by lra;
    f_equal; apply math_isclose_percent; try lra; split; nra.
Qed.

(** X9. Every case of [test_f_r] passes: on each parameter tuple [f_r]
    returns a value within the relative tolerance [1e-2] of the expected
    value. *)
Theorem test_f_r_passes :
  Forall (fun c => test_f_r (fst (fst c)) (snd (fst c)) (snd c) = Ok true)
         test_f_r_cases.
Proof.
  pose proof sqrt_4000. pose proof sqrt_5000.
  unfold test_f_r_cases.
  repeat constructor; cbn [fst snd]; unfold test_f_r;
    rewrite f_r_nonneg by lra; cbn [bind];
    f_equal; apply math_isclose_percent; lra.
Qed.

(** ** The domain of the shear engine *)

Lemma quotient_negative (a t : R) : t < 0 -> 0 < a -> a / t < 0.
Proof.
  intros Ht Ha. assert (Hi : / t < 0) by now apply Rinv_lt_0_compat.
  unfold Rdiv. nra.
Qed.

Lemma quotient_negative_l (a t : R) : 0 < t -> a < 0 -> a / t < 0.
Proof.
  intros Ht Ha. assert (Hi : 0 < / t) by now apply Rinv_0_lt_compat.
  unfold Rdiv. nra.
Qed.

Lemma py_pow_third_total (x : R) : exists p, py_pow x (1 / 3) = Ok p.
Proof.
  destruct (Rlt_le_dec x 0) as [Hneg | Hpos].
  - destruct (py_pow_third_neg x Hneg) as (re & im & E); eauto.
  - rewrite py_pow_nonneg by lra; eauto.
Qed.

Lemma size_effect_factor_domain (d l : R) :
  size_effect_factor d = Ok l -> -10 < d.
Proof.
  unfold size_effect_factor; intros H.
  apply bind_Ok_inv in H as (q & Hq & H).
  apply bind_Ok_inv in H as (s & Hs & _).
  apply py_div_Ok_inv in Hq as [Hne ->].
  apply math_sqrt_Ok_inv in Hs as [Hpos _].
  destruct (Rlt_le_dec (1 + d / 10) 0) as [Hneg | Hge]; [| lra].
  pose proof (quotient_negative 2 _ Hneg ltac:(lra)). lra.
Qed.

Lemma size_effect_factor_at_minus_10 :
  size_effect_factor (-10) = Raise ZeroDivisionError.
Proof.
  unfold size_effect_factor, py_div. rewrite Reqb_true by lra. reflexivity.
Qed.

Lemma size_effect_factor_below_minus_10 (d : R) :
  d < -10 ->
  size_effect_factor d = Raise (ValueError (Msg "math domain error")).
Proof.
  intros Hd. unfold size_effect_factor.
  rewrite py_div_ok by lra; cbn [bind].
  rewrite math_sqrt_neg; [reflexivity |].
  apply quotient_negative; lra.
Qed.

(** The branch without minimum reinforcement, on a negative [Av_min]. *)
Lemma Vc_without_min_reinf_negative (f_c bw d a lambda_concrete ls : R)
    (v : pynum) :
  a < 0 ->
  Vc_without_min_reinf f_c bw d (Some a) lambda_concrete ls = Ok v ->
  bw * d <> 0.
Proof.
  intros Ha; unfold Vc_without_min_reinf; intros H.
  apply bind_Ok_inv in H as (rho_w & Hrho & _).
  rewrite truthy_true in Hrho by lra.
  now apply py_div_Ok_inv in Hrho as [Hne _].
Qed.

(** Step 2 returns a float exactly when [f_c >= 0] and a given [Av_min]
    comes with a non-zero [bw * d] of its own sign. *)
Lemma Vc_table_returns (f_c bw d : R) (Av_min : option R)
    (lambda_concrete : R) :
  0 <= f_c ->
  (forall a, Av_min = Some a -> bw * d <> 0 /\ 0 <= a / (bw * d)) ->
  Vc_table f_c bw d Av_min lambda_concrete (lambda_s_spec d)
    = Ok (PyFloat (Vc_step2_spec f_c bw d Av_min lambda_concrete)).
Proof.
  intros Hf Ha; unfold Vc_table, Vc_step2_spec.
  destruct Av_min as [a |]; [| now apply Vc_without_min_reinf_None].
  destruct (Ha a eq_refl) as [Hbd Hrho].
  unfold Rleb. destruct (Rle_dec 0 a) as [Hpos | Hneg].
  - unfold Vc_with_min_reinf.
    rewrite math_sqrt_ok by assumption; cbn [bind].
    rewrite py_div_ok by assumption; cbn [bind].
    rewrite py_pow_nonneg by (assumption || lra).
    cbn [bind py_mul]. rewrite py_max_float. reflexivity.
  - unfold Vc_without_min_reinf, rho_w_spec.
    rewrite truthy_true by lra.
    destruct (Req_dec_T a 0) as [H0 | _]; [lra |].
    rewrite py_div_ok by assumption; cbn [bind].
    rewrite py_pow_nonneg by (assumption || lra); cbn [bind].
    rewrite math_sqrt_ok by assumption. reflexivity.
Qed.

Lemma Vc_table_float_domain (f_c bw d : R) (Av_min : option R)
    (lambda_concrete ls v : R) :
  Vc_table f_c bw d Av_min lambda_concrete ls = Ok (PyFloat v) ->
  forall a, Av_min = Some a -> bw * d <> 0 /\ 0 <= a / (bw * d).
Proof.
  unfold Vc_table; intros H a ->.
  unfold Rleb in H. destruct (Rle_dec 0 a) as [Hpos | Hneg].
  - apply Vc_with_min_reinf_float in H as (_ & Hbd & Hrho & _). now split.
  - assert (Hlt : a < 0) by lra.
    pose proof (Vc_without_min_reinf_negative _ _ _ _ _ _ _ Hlt H) as Hbd.
    apply Vc_without_min_reinf_float in H as (_ & Hrho & _).
    unfold rho_w_spec in Hrho.
    destruct (Req_dec_T a 0); [lra | now split].
Qed.

Lemma check_passes (Nu : R) (Ag : option R) :
  ~ (Nu <> 0 /\ Ag = None) <-> truthy Nu && is_None Ag = false.
Proof.
  split.
  - intros H. destruct Ag; [apply andb_false_r |].
    destruct (Req_dec_T Nu 0) as [H0 | H0].
    + now rewrite (truthy_false Nu H0).
    + elim H; now split.
  - intros H [HNu ->]. now rewrite (truthy_true Nu HNu) in H.
Qed.

(** What is returned on every input of the domain. *)
Lemma calc_shear_strength_value (f_c bw d Nu : R) (Ag Av_min : option R)
    (lambda_concrete : R) (phi0 : option R) :
  ~ (Nu <> 0 /\ Ag = None) -> -10 < d -> 0 <= f_c ->
  (forall a, Av_min = Some a -> bw * d <> 0 /\ 0 <= a / (bw * d)) ->
  let Vc' := Rmin (Vc_step2_spec f_c bw d Av_min lambda_concrete
                     + Nu_term_spec f_c Nu Ag * bw * d)
                  (Vc_max_spec f_c bw d lambda_concrete) in
  let phi' := match phi0 with Some p => p | None => 75 / 100 end in
  calc_shear_strength f_c bw d Nu Ag Av_min lambda_concrete phi0
    = Ok (mk_shear_strength Vc' (phi' * Vc') phi' (lambda_s_spec d)).
Proof.
  intros Hchk Hd Hf Ha; unfold calc_shear_strength.
  apply check_passes in Hchk. rewrite Hchk; cbn [raise_if bind].
  rewrite size_effect_factor_ok by assumption; cbn [bind].
  rewrite Vc_table_returns by assumption; cbn [bind].
  rewrite axial_term_total; cbn [bind py_add].
  rewrite math_sqrt_ok by assumption; cbn [bind].
  rewrite py_min_float; reflexivity.
Qed.

(** X10. The domain of [calc_shear_strength]: it returns a dictionary
    exactly when [Ag] is given or [Nu = 0], [d > -10], [f_c >= 0], and a
    given [Av_min] comes with [bw * d != 0] and a ratio
    [Av_min / (bw * d) >= 0]; on every other input it raises. *)
Theorem calc_shear_strength_domain (f_c bw d Nu : R) (Ag Av_min : option R)
    (lambda_concrete : R) (phi0 : option R) :
  (exists res,
     calc_shear_strength f_c bw d Nu Ag Av_min lambda_concrete phi0 = Ok res)
  <->
  (~ (Nu <> 0 /\ Ag = None) /\ -10 < d /\ 0 <= f_c /\
   forall a, Av_min = Some a -> bw * d <> 0 /\ 0 <= a / (bw * d)).
Proof.
  split.
  - intros [res H].
    apply calc_shear_strength_Ok_inv in H as (v & Hchk & Hls & Hv & Hf & _).
    split; [now apply check_passes |].
    split; [now apply size_effect_factor_domain in Hls |].
    split; [assumption |].
    exact (Vc_table_float_domain _ _ _ _ _ _ _ Hv).
  - intros (Hchk & Hd & Hf & Ha). eexists.
    now apply calc_shear_strength_value.
Qed.

(** ** How the shear engine fails *)

(** A complex factor makes the product complex, and the comparison of
    [max] or [min] fail. *)
Lemma py_mul_complex_l (re im : R) (b : pynum) :
  exists re' im', PyComplex re im *! b = PyComplex re' im'.
Proof. destruct b; cbn; eauto. Qed.

Lemma py_mul_complex_r (x re im : R) :
  exists re' im', PyFloat x *! PyComplex re im = PyComplex re' im'.
Proof. cbn; eauto. Qed.

Lemma ratio_product_complex (k s bw d rho : R) :
  rho < 0 ->
  exists p re im,
    py_pow rho (1 / 3) = Ok p /\
    PyFloat k *! p *! PyFloat s *! PyFloat bw *! PyFloat d
      = PyComplex re im.
Proof.
  intros Hrho. destruct (py_pow_third_neg rho Hrho) as (re & im & E).
  exists (PyComplex re im).
  destruct (py_mul_complex_r k re im) as (r1 & i1 & ->).
  destruct (py_mul_complex_l r1 i1 (PyFloat s)) as (r2 & i2 & ->).
  destruct (py_mul_complex_l r2 i2 (PyFloat bw)) as (r3 & i3 & ->).
  destruct (py_mul_complex_l r3 i3 (PyFloat d)) as (r4 & i4 & ->).
  eauto.
Qed.

Lemma Vc_table_negative_strength (f_c bw d : R) (Av_min : option R)
    (lambda_concrete ls : R) :
  f_c < 0 ->
  (forall a, Av_min = Some a -> a < 0 -> bw * d <> 0) ->
  Vc_table f_c bw d Av_min lambda_concrete ls
    = Raise (ValueError (Msg "math domain error")).
Proof.
  intros Hf Ha; unfold Vc_table.
  assert (Hwo : forall rho_w,
             p <- py_pow rho_w (1 / 3) ;;
             s <- math_sqrt f_c ;;
             Ok (PyFloat (8 * ls * lambda_concrete) *! p *! PyFloat s
                   *! PyFloat bw *! PyFloat d)
             = Raise (ValueError (Msg "math domain error"))).
  { intros rho_w. destruct (py_pow_third_total rho_w) as [p ->].
    cbn [bind]. now rewrite math_sqrt_neg. }
  destruct Av_min as [a |]; [| apply Hwo].
  unfold Rleb; destruct (Rle_dec 0 a) as [Hpos | Hneg].
  - unfold Vc_with_min_reinf. now rewrite math_sqrt_neg.
  - unfold Vc_without_min_reinf. rewrite truthy_true by lra.
    rewrite py_div_ok by (apply (Ha a eq_refl); lra). apply Hwo.
Qed.

Lemma Vc_table_zero_section (f_c bw d a lambda_concrete ls : R) :
  0 <= f_c -> bw * d = 0 ->
  Vc_table f_c bw d (Some a) lambda_concrete ls = Raise ZeroDivisionError.
Proof.
  intros Hf Hbd; unfold Vc_table, Rleb.
  destruct (Rle_dec 0 a) as [Hpos | Hneg].
  - unfold Vc_with_min_reinf. rewrite math_sqrt_ok by assumption.
    cbn [bind]. unfold py_div. now rewrite Reqb_true.
  - unfold Vc_without_min_reinf. rewrite truthy_true by lra.
    unfold py_div. now rewrite Reqb_true.
Qed.

(** On a ratio [Av_min / (bw * d) < 0] step 2 either fails in [max] or
    hands a complex number on. *)
Lemma Vc_table_negative_ratio (f_c bw d a lambda_concrete ls : R) :
  0 <= f_c -> bw * d <> 0 -> a / (bw * d) < 0 ->
  Vc_table f_c bw d (Some a) lambda_concrete ls = Raise TypeError \/
  exists re im,
    Vc_table f_c bw d (Some a) lambda_concrete ls = Ok (PyComplex re im).
Proof.
  intros Hf Hbd Hrho; unfold Vc_table, Rleb.
  destruct (Rle_dec 0 a) as [Hpos | Hneg].
  - left. unfold Vc_with_min_reinf.
    rewrite math_sqrt_ok by assumption; cbn [bind].
    rewrite py_div_ok by assumption; cbn [bind].
    destruct (ratio_product_complex (8 * lambda_concrete) (sqrt f_c) bw d
                _ Hrho) as (p & re & im & -> & E).
    cbn [bind]. rewrite E. reflexivity.
  - right. unfold Vc_without_min_reinf. rewrite truthy_true by lra.
    rewrite py_div_ok by assumption; cbn [bind].
    destruct (ratio_product_complex (8 * ls * lambda_concrete) (sqrt f_c)
                bw d _ Hrho) as (p & re & im & -> & E).
    cbn [bind]. rewrite math_sqrt_ok by assumption; cbn [bind].
    rewrite E. eauto.
Qed.

(** X11. How [calc_shear_strength] fails past the check on [Ag]:
    [d = -10] divides by zero and [d < -10] takes the square root of a
    negative number; for [d > -10], a negative [f_c] is a math domain
    error, a given [Av_min] on a section with [bw * d = 0] divides by
    zero, and a ratio [Av_min / (bw * d) < 0] (a negative [Av_min] on a
    positive section) ends in the [TypeError] of comparing a complex
    number. *)
Theorem calc_shear_strength_failures (f_c bw d Nu : R)
    (Ag Av_min : option R) (lambda_concrete : R) (phi0 : option R) :
  ~ (Nu <> 0 /\ Ag = None) ->
  let call :=
    calc_shear_strength f_c bw d Nu Ag Av_min lambda_concrete phi0 in
  (d = -10 -> call = Raise ZeroDivisionError) /\
  (d < -10 -> call = Raise (ValueError (Msg "math domain error"))) /\
  (-10 < d -> f_c < 0 ->
     (forall a, Av_min = Some a -> a < 0 -> bw * d <> 0) ->
     call = Raise (ValueError (Msg "math domain error"))) /\
  (-10 < d -> 0 <= f_c ->
     forall a, Av_min = Some a ->
       (bw * d = 0 -> call = Raise ZeroDivisionError) /\
       (bw * d <> 0 -> a / (bw * d) < 0 -> call = Raise TypeError)).
Proof.
  intros Hchk. apply check_passes in Hchk. cbv zeta.
  unfold calc_shear_strength. rewrite Hchk; cbn [raise_if bind].
  repeat apply conj.
  - intros ->. now rewrite size_effect_factor_at_minus_10.
  - intros Hd. now rewrite size_effect_factor_below_minus_10.
  - intros Hd Hf Ha. rewrite size_effect_factor_ok by assumption.
    cbn [bind]. now rewrite Vc_table_negative_strength.
  - intros Hd Hf a ->. rewrite size_effect_factor_ok by assumption.
    cbn [bind]. split; [intros Hbd | intros Hbd Hrho].
    { now rewrite Vc_table_zero_section. }
    destruct (Vc_table_negative_ratio f_c bw d a lambda_concrete
                (lambda_s_spec d) Hf Hbd Hrho) as [-> | (re & im & ->)];
      [reflexivity |].
    cbn [bind]. rewrite axial_term_total; cbn [bind].
    rewrite math_sqrt_ok by assumption; cbn [bind]. reflexivity.
Qed.

Lemma calc_shear_strength_failures_witness :
  calc_shear_strength 4000 12 (-10) 0 None None 1 None
    = Raise ZeroDivisionError /\
  calc_shear_strength 4000 12 20 0 None (Some (-1)) 1 None
    = Raise TypeError /\
  calc_shear_strength 4000 0 20 0 None (Some 1) 1 None
    = Raise ZeroDivisionError.
Proof.
  assert (Hchk : ~ (0 <> 0 /\ @None R = None)) by (intros [H _]; lra).
  split; [| split].
  - pose proof (calc_shear_strength_failures 4000 12 (-10) 0 None None 1
                  None Hchk) as H.
    cbv zeta in H. destruct H as (H & _). now apply H.
  - pose proof (calc_shear_strength_failures 4000 12 20 0 None (Some (-1))
                  1 None Hchk) as H.
    cbv zeta in H. destruct H as (_ & _ & _ & H).
    apply (H ltac:(lra) ltac:(lra) (-1) eq_refl); [lra |].
    apply quotient_negative_l; lra.
  - pose proof (calc_shear_strength_failures 4000 0 20 0 None (Some 1) 1
                  None Hchk) as H.
    cbv zeta in H. destruct H as (_ & _ & _ & H).
    apply (H ltac:(lra) ltac:(lra) 1 eq_refl); lra.
Defined.

(** ** The axial load *)

Lemma Nu_term_spec_zero_area (f_c Nu : R) :
  Nu_term_spec f_c Nu (Some 0) = 0.
Proof.
  unfold Nu_term_spec. destruct (Req_dec_T Nu 0); [reflexivity |].
  destruct (Req_dec_T 0 0); [reflexivity | lra].
Qed.

(** On a positive area the axial term is [min(Nu / (6 Ag), 0.05 f_c)]
    also at [Nu = 0]. *)
Lemma Nu_term_spec_positive_area (f_c Nu ag : R) :
  0 <= f_c -> 0 < ag ->
  Nu_term_spec f_c Nu (Some ag) = Rmin (Nu / (6 * ag)) (5 / 100 * f_c).
Proof.
  intros Hf Hag. unfold Nu_term_spec.
  destruct (Req_dec_T Nu 0) as [-> | _].
  - replace (0 / (6 * ag)) with 0 by (unfold Rdiv; ring).
    rewrite Rmin_left; lra.
  - destruct (Req_dec_T ag 0); [lra | reflexivity].
Qed.

Lemma quotient_increasing (a b t : R) : 0 < t -> a <= b -> a / t <= b / t.
Proof.
  intros Ht Hab. assert (Hi : 0 < / t) by now apply Rinv_0_lt_compat.
  unfold Rdiv. nra.
Qed.

(** X12. A gross area [Ag = 0] is accepted where an omitted one is
    refused: with [Ag = 0] the call does not divide by it, the axial load
    is dropped, and the result is that of the same call with no axial
    load and no area; with [Ag] omitted and [Nu != 0] the call raises. *)
Theorem zero_area_drops_axial_load (f_c bw d Nu : R) (Av_min : option R)
    (lambda_concrete : R) (phi0 : option R) :
  calc_shear_strength f_c bw d Nu (Some 0) Av_min lambda_concrete phi0
    = calc_shear_strength f_c bw d 0 None Av_min lambda_concrete phi0 /\
  (Nu <> 0 ->
   calc_shear_strength f_c bw d Nu None Av_min lambda_concrete phi0
     = Raise Ag_required).
Proof.
  split.
  - unfold calc_shear_strength.
    rewrite !axial_term_total, Nu_term_spec_zero_area, Nu_term_spec_no_load.
    rewrite andb_false_r. now rewrite (truthy_false 0 eq_refl).
  - intros HNu. unfold calc_shear_strength.
    now rewrite (truthy_true Nu HNu).
Qed.

(** X13. On a section [bw > 0], [d > 0] with [f_c >= 0] and a gross
    area [Ag > 0], the returned [Vc] does not decrease when the axial
    load increases, and it exceeds the [Vc] of the unloaded section by
    at most [0.05 * f_c * bw * d]. *)
Theorem Vc_monotone_in_axial_load (f_c bw d ag Nu1 Nu2 : R)
    (Av_min : option R) (lambda_concrete : R) (phi0 : option R) :
  0 <= f_c -> 0 < bw -> 0 < d -> 0 < ag ->
  (forall a, Av_min = Some a -> 0 <= a) ->
  Nu1 <= Nu2 ->
  exists r0 r1 r2,
    calc_shear_strength f_c bw d 0 (Some ag) Av_min lambda_concrete phi0
      = Ok r0 /\
    calc_shear_strength f_c bw d Nu1 (Some ag) Av_min lambda_concrete phi0
      = Ok r1 /\
    calc_shear_strength f_c bw d Nu2 (Some ag) Av_min lambda_concrete phi0
      = Ok r2 /\
    Vc r1 <= Vc r2 /\
    Vc r2 <= Vc r0 + 5 / 100 * f_c * bw * d.
Proof.
  intros Hf Hbw Hd Hag Ha Hle.
  rewrite !calc_shear_strength_returns by (assumption || discriminate).
  do 3 eexists. do 3 (split; [reflexivity |]). cbn [Vc].
  rewrite !Nu_term_spec_positive_area by assumption.
  replace (0 / (6 * ag)) with 0 by (unfold Rdiv; ring).
  assert (Hq : Nu1 / (6 * ag) <= Nu2 / (6 * ag))
    by (apply quotient_increasing; lra).
  assert (Hbd : 0 < bw * d) by now apply Rmult_lt_0_compat.
  set (v := Vc_step2_spec f_c bw d Av_min lambda_concrete).
  set (cap := Vc_max_spec f_c bw d lambda_concrete).
  set (q1 := Nu1 / (6 * ag)) in *. set (q2 := Nu2 / (6 * ag)) in *.
  assert (Ht : Rmin q1 (5 / 100 * f_c) <= Rmin q2 (5 / 100 * f_c)).
  { apply Rle_min_compat_r; assumption. }
  assert (Hcap : Rmin q2 (5 / 100 * f_c) <= 5 / 100 * f_c) by apply Rmin_r.
  assert (H0 : Rmin 0 (5 / 100 * f_c) = 0) by (apply Rmin_left; lra).
  rewrite H0.
  split.
  - apply Rle_min_compat_r. nra.
  - unfold Rmin at 1 3.
    destruct (Rle_dec (v + Rmin q2 (5 / 100 * f_c) * bw * d) cap);
      destruct (Rle_dec (v + 0 * bw * d) cap); nra.
Qed.

Lemma Vc_monotone_in_axial_load_witness :
  exists r0 r1 r2,
    calc_shear_strength 4000 12 20 0 (Some 288) (Some 1) 1 None = Ok r0 /\
    calc_shear_strength 4000 12 20 (-10000) (Some 288) (Some 1) 1 None
      = Ok r1 /\
    calc_shear_strength 4000 12 20 50000 (Some 288) (Some 1) 1 None
      = Ok r2 /\
    Vc r1 <= Vc r2 /\
    Vc r2 <= Vc r0 + 5 / 100 * 4000 * 12 * 20.
Proof.
  apply (Vc_monotone_in_axial_load 4000 12 20 288 (-10000) 50000 (Some 1)
           1 None); try lra.
  intros a Ha; injection Ha as <-; lra.
Defined.

(** X14. Axial tension is not cut at zero: with no minimum
    reinforcement, a tension [Nu < 0] on a gross area [Ag > 0] and a
    factor [lambda_concrete >= 0], the returned [Vc] is the negative
    number [Nu / (6 * Ag) * bw * d]. *)
Theorem tension_gives_negative_Vc (f_c bw d Nu ag lambda_concrete : R)
    (phi0 : option R) :
  0 <= f_c -> 0 < bw -> 0 < d -> 0 < ag -> Nu < 0 ->
  0 <= lambda_concrete ->
  exists res,
    calc_shear_strength f_c bw d Nu (Some ag) None lambda_concrete phi0
      = Ok res /\
    Vc res = Nu / (6 * ag) * bw * d /\ Vc res < 0.
Proof.
  intros Hf Hbw Hd Hag HNu Hl.
  rewrite calc_shear_strength_returns by (assumption || discriminate).
  eexists. split; [reflexivity |]. cbn [Vc].
  rewrite Vc_step2_spec_None, Nu_term_spec_positive_area by assumption.
  assert (Hq : Nu / (6 * ag) < 0) by (apply quotient_negative_l; lra).
  assert (Hbd : 0 < bw * d) by now apply Rmult_lt_0_compat.
  rewrite (Rmin_left (Nu / (6 * ag))) by lra.
  pose proof (sqrt_pos f_c) as Hs.
  assert (Hcap : 0 <= Vc_max_spec f_c bw d lambda_concrete).
  { unfold Vc_max_spec.
    assert (0 <= lambda_concrete * sqrt f_c) by now apply Rmult_le_pos.
    nra. }
  rewrite Rmin_left by nra. split; [ring | nra].
Qed.

Lemma tension_gives_negative_Vc_witness :
  exists res,
    calc_shear_strength 4000 12 20 (-10000) (Some 288) None 1 None
      = Ok res /\
    Vc res = -10000 / (6 * 288) * 12 * 20 /\ Vc res < 0.
Proof.
  apply (tension_gives_negative_Vc 4000 12 20 (-10000) 288 1 None); lra.
Defined.

(** X15. With minimum reinforcement ([Av_min >= 0]) and no axial
    tension, on a section [bw > 0], [d > 0] with [f_c >= 0] and
    [lambda_concrete >= 0], the returned [Vc] lies between
    [2 lambda sqrt(f_c) bw d] and [5 lambda sqrt(f_c) bw d]. *)
Theorem Vc_with_min_reinf_bounds (f_c bw d Nu a lambda_concrete : R)
    (Ag : option R) (phi0 : option R) :
  0 <= f_c -> 0 < bw -> 0 < d -> 0 <= a -> 0 <= lambda_concrete ->
  (Nu = 0 \/ (0 < Nu /\ exists ag, Ag = Some ag /\ 0 <= ag)) ->
  exists res,
    calc_shear_strength f_c bw d Nu Ag (Some a) lambda_concrete phi0
      = Ok res /\
    2 * lambda_concrete * sqrt f_c * bw * d <= Vc res
      <= 5 * lambda_concrete * sqrt f_c * bw * d.
Proof.
  intros Hf Hbw Hd Ha Hl HNu.
  assert (HAg : Nu <> 0 -> Ag <> None).
  { intros H. destruct HNu as [-> | (_ & ag & -> & _)];
      [lra | discriminate]. }
  rewrite calc_shear_strength_returns; try assumption;
    [| intros a' Ha'; injection Ha' as <-; assumption].
  eexists. split; [reflexivity |]. cbn [Vc].
  assert (Hbd : 0 < bw * d) by now apply Rmult_lt_0_compat.
  pose proof (sqrt_pos f_c) as Hs.
  assert (Hls : 0 <= lambda_concrete * sqrt f_c) by now apply Rmult_le_pos.
  assert (Ht : 0 <= Nu_term_spec f_c Nu Ag).
  { destruct HNu as [-> | (HNu & ag & -> & Hag)].
    - rewrite Nu_term_spec_no_load; lra.
    - destruct (Req_dec_T ag 0) as [-> | Hne].
      + rewrite Nu_term_spec_zero_area; lra.
      + rewrite Nu_term_spec_positive_area by lra.
        apply Rmin_glb; [| lra].
        assert (0 < / (6 * ag)) by (apply Rinv_0_lt_compat; lra).
        unfold Rdiv; nra. }
  assert (Hmax : Vc_a_spec f_c bw d lambda_concrete
                 <= Vc_step2_spec f_c bw d (Some a) lambda_concrete).
  { unfold Vc_step2_spec. destruct (Rle_dec 0 a); [apply Rmax_l | lra]. }
  unfold Vc_a_spec in Hmax. unfold Vc_max_spec.
  split; [| apply Rmin_r].
  apply Rmin_glb; nra.
Qed.

Lemma Vc_with_min_reinf_bounds_witness :
  exists res,
    calc_shear_strength 4000 12 20 50000 (Some 288) (Some 1) 1 None
      = Ok res /\
    2 * 1 * sqrt 4000 * 12 * 20 <= Vc res <= 5 * 1 * sqrt 4000 * 12 * 20.
Proof.
  apply (Vc_with_min_reinf_bounds 4000 12 20 50000 1 1 (Some 288) None);
    try lra.
  right. split; [lra |]. exists 288. split; [reflexivity | lra].
Defined.

(** ** Invariants of the facade *)

Section FacadeInvariants.

Variable aci318_19_fct : option R -> result pynum.
Variable aci318_19_eps_cu : option R -> result pynum.

Local Abbreviation getI := (get aci318_19_fct aci318_19_eps_cu).
Local Abbreviation computeI := (compute aci318_19_fct aci318_19_eps_cu).
Local Abbreviation stepI := (step aci318_19_fct aci318_19_eps_cu).
Local Abbreviation runI := (run aci318_19_fct aci318_19_eps_cu).
Local Abbreviation primI := (primitive aci318_19_fct aci318_19_eps_cu).

Lemma store_fc (p : derived) (v : option pynum) (c : ConcreteACI318_19) :
  _fc (store p v c) = _fc c.
Proof. now destruct p. Qed.

Lemma compute_fc (p : derived) (w : world) :
  _fc (self (snd (computeI p w))) = _fc (self w).
Proof.
  unfold compute. destruct (primI p (_fc (self w))); cbn [snd self];
    [apply store_fc | reflexivity].
Qed.

(** A read leaves the log as it is or adds one call, for the property
    read. *)
Lemma get_effect (p : derived) (w : world) :
  _fc (self (snd (getI p w))) = _fc (self w) /\
  (calls (snd (getI p w)) = calls w \/
   calls (snd (getI p w)) = p :: calls w).
Proof.
  assert (Hc : _fc (self (snd (computeI p w))) = _fc (self w) /\
               (calls (snd (computeI p w)) = calls w \/
                calls (snd (computeI p w)) = p :: calls w)).
  { split; [apply compute_fc | right; apply compute_logs]. }
  unfold get. destruct p.
  - destruct (backing D_Ec (self w)); [now split; [| left] | exact Hc].
  - destruct (backing D_fct (self w)); [now split; [| left] | exact Hc].
  - destruct (backing D_eps_cu (self w)) as [v |]; [| exact Hc].
    destruct (truthy_num v); [| exact Hc].
    cbn [snd self calls]. split; [apply store_fc | now left].
Qed.

Lemma step_effect (o : op) (w : world) :
  _fc (self (stepI o w)) = _fc (self w) /\
  exists l, calls (stepI o w) = l ++ calls w /\
            (forall p, In p l -> o = Read p) /\
            (List.length l <= 1)%nat.
Proof.
  destruct o as [p | p value]; cbn [step].
  - destruct (get_effect p w) as [Hfc [Hl | Hl]]; split; try exact Hfc.
    + exists []. rewrite Hl. repeat split; [intros q [] | cbn; lia].
    + exists [p]. rewrite Hl. repeat split; [| cbn; lia].
      intros q [<- | []]; reflexivity.
  - split; [destruct p; reflexivity |].
    exists []. repeat split; [now destruct p | intros q [] | cbn; lia].
Qed.

(** X16. Whatever is read and written on an instance, [_fc] keeps the
    value it had, and the log of calls into the code module only grows:
    by at most one call per read, each for a property that was read. *)
Theorem run_keeps_fc_and_log (ops : list op) (w : world) :
  _fc (self (runI ops w)) = _fc (self w) /\
  exists l, calls (runI ops w) = l ++ calls w /\
            (forall p, In p l -> In (Read p) ops) /\
            (List.length l <= List.length ops)%nat.
Proof.
  revert w. induction ops as [| o ops IH]; intros w.
  - split; [reflexivity |]. exists []. repeat split; [intros p [] | cbn; lia].
  - cbn [run fold_left].
    destruct (step_effect o w) as (Hfc & l1 & Hl1 & Hin1 & Hlen1).
    destruct (IH (stepI o w)) as (Hfc' & l2 & Hl2 & Hin2 & Hlen2).
    unfold run in *. split; [now rewrite Hfc', Hfc |].
    exists (l2 ++ l1). rewrite Hl2, Hl1, app_assoc.
    repeat split.
    + intros p Hp. apply in_app_or in Hp as [Hp | Hp].
      * right. now apply Hin2.
      * left. now apply Hin1.
    + rewrite length_app. cbn [List.length]. lia.
Qed.

(** X17. Operations on other properties leave a property alone: through
    any operations none of which reads or writes [p], the backing field
    of [p] and the number of calls made for [p] stay what they were. *)
Theorem other_properties_untouched (p : derived) (ops : list op)
    (w : world) :
  forallb (fun o => negb (concerns p o)) ops = true ->
  backing p (self (runI ops w)) = backing p (self w) /\
  calls_for p (runI ops w) = calls_for p w.
Proof.
  revert w. induction ops as [| o ops IH]; intros w Hops; [now split |].
  cbn [forallb] in Hops. apply andb_prop in Hops as [Ho Hops].
  apply negb_true_iff in Ho.
  cbn [run fold_left]. destruct (IH (stepI o w) Hops) as [Hb Hc].
  unfold run in *. rewrite Hb, Hc.
  destruct o as [q | q value]; cbn [step concerns] in *.
  - now apply get_frame.
  - now apply set_frame.
Qed.

Lemma calls_for_cons (p q : derived) (w : world) (c : ConcreteACI318_19) :
  calls_for p (mk_world c (q :: calls w))
    = ((if derived_eqb p q then 1 else 0) + calls_for p w)%nat.
Proof.
  unfold calls_for. cbn [calls filter].
  now destruct (derived_eqb p q).
Qed.

Lemma derived_eqb_same (p : derived) : derived_eqb p p = true.
Proof. now destruct p. Qed.

(** A getter that finds nothing computes. *)
Lemma get_finds_nothing (p : derived) (w : world) :
  finds_nothing p (self w) = true -> getI p w = computeI p w.
Proof.
  unfold finds_nothing, get.
  destruct p; destruct (backing _ (self w)) as [v |];
    try reflexivity; try discriminate.
  intros H. apply negb_true_iff in H. now rewrite H.
Qed.

Lemma compute_counts (p : derived) (w : world) :
  calls_for p (snd (computeI p w)) = S (calls_for p w).
Proof.
  unfold compute. destruct (primI p (_fc (self w))); cbn [snd];
    now rewrite calls_for_cons, derived_eqb_same.
Qed.

(** After a computation the field holds a value the getter serves, or
    the getter still finds nothing, according to what the code module
    returned. *)
Lemma compute_outcome (p : derived) (w : world) :
  let r := primI p (_fc (self w)) in
  if kept_by_getter p r
  then exists v, backing p (self (snd (computeI p w))) = Some v /\
                 (p = D_eps_cu -> truthy_num v = true)
  else finds_nothing p (self w) = true ->
       finds_nothing p (self (snd (computeI p w))) = true.
Proof.
  cbv zeta. unfold compute, kept_by_getter.
  destruct (primI p (_fc (self w))) as [v | e]; cbn [snd self].
  - destruct p; cbn [store backing _Ec _fct _eps_cu].
    + exists v; split; [reflexivity | discriminate].
    + exists v; split; [reflexivity | discriminate].
    + destruct (truthy_num v) eqn:Hv.
      * exists v; split; [reflexivity | auto].
      * intros _. unfold finds_nothing. cbn. now rewrite Hv.
  - auto.
Qed.

(** The count of later calls once the field holds a served value. *)
Lemma run_counts_held (p : derived) (v : pynum) (ops : list op)
    (w : world) :
  no_write p ops = true ->
  backing p (self w) = Some v ->
  (p = D_eps_cu -> truthy_num v = true) ->
  calls_for p (runI ops w) = calls_for p w.
Proof.
  intros Hops Hb Ht.
  now destruct (run_keeps aci318_19_fct aci318_19_eps_cu p v ops w
                  Hops Hb Ht).
Qed.

Lemma reads_of_read (p q : derived) (ops : list op) :
  reads_of p (Read q :: ops)
    = ((if derived_eqb p q then 1 else 0) + reads_of p ops)%nat.
Proof. unfold reads_of. cbn [filter]. now destruct (derived_eqb p q). Qed.

Lemma reads_of_write (p q : derived) (value : R) (ops : list op) :
  reads_of p (Write q value :: ops) = reads_of p ops.
Proof. reflexivity. Qed.

(** X18. When a property is computed.  From an instance on which the
    getter of [p] finds nothing, through operations that never write
    [p]: if the code module returns a value the getter keeps (any value
    for [Ec] and [fct], a truthy one for [eps_cu]), it is called once,
    at the first read, however many reads follow; if it raises, or for
    [eps_cu] returns zero, nothing is kept and it is called again at
    every read. *)
Theorem computed_once_or_every_time (p : derived) (ops : list op)
    (w : world) :
  finds_nothing p (self w) = true ->
  no_write p ops = true ->
  calls_for p (runI ops w)
    = (calls_for p w
       + if kept_by_getter p (primI p (_fc (self w)))
         then Nat.min 1 (reads_of p ops)
         else reads_of p ops)%nat.
Proof.
  revert w. induction ops as [| o ops IH]; intros w Hn Hops.
  - cbn. destruct (kept_by_getter _ _); cbn; lia.
  - cbn [no_write forallb] in Hops. apply andb_prop in Hops as [Ho Hops].
    apply negb_true_iff in Ho. fold (no_write p ops) in Hops.
    cbn [run fold_left]. fold (runI ops (stepI o w)).
    destruct o as [q | q value].
    + cbn [step]. rewrite reads_of_read.
      destruct (derived_eqb p q) eqn:Hpq.
      * apply derived_eqb_eq in Hpq as <-.
        rewrite (get_finds_nothing p w Hn).
        pose proof (compute_outcome p w) as Hout. cbv zeta in Hout.
        pose proof (compute_counts p w) as Hcnt.
        pose proof (compute_fc p w) as Hfc.
        destruct (kept_by_getter p (primI p (_fc (self w)))) eqn:Hk.
        -- destruct Hout as (v & Hb & Ht).
           rewrite (run_counts_held p v ops _ Hops Hb Ht), Hcnt. lia.
        -- rewrite (IH _ (Hout Hn) Hops), Hfc, Hk, Hcnt. lia.
      * destruct (get_frame aci318_19_fct aci318_19_eps_cu p q w Hpq)
          as [Hb Hc].
        destruct (get_effect q w) as [Hfc _].
        assert (Hn' : finds_nothing p (self (snd (getI q w))) = true).
        { unfold finds_nothing in *. now rewrite Hb. }
        rewrite (IH _ Hn' Hops), Hfc, Hc. reflexivity.
    + cbn [writes] in Ho. cbn [step]. rewrite reads_of_write.
      destruct (set_frame p q value w Ho) as [Hb Hc].
      assert (Hn' : finds_nothing p (self (set q value w)) = true).
      { unfold finds_nothing in *. now rewrite Hb. }
      assert (Hfc : _fc (self (set q value w)) = _fc (self w))
        by now destruct q.
      rewrite (IH _ Hn' Hops), Hfc, Hc. reflexivity.
Qed.

End FacadeInvariants.

Lemma computed_once_or_every_time_witness :
  calls_for D_Ec
    (run sample_fct sample_eps_cu
       [Read D_Ec; Read D_fct; Read D_Ec; Write D_fct 1; Read D_Ec] C4000)
    = (calls_for D_Ec C4000 + 1)%nat /\
  calls_for D_eps_cu
    (run sample_fct (fun _ => Ok (PyFloat 0))
       [Read D_eps_cu; Read D_eps_cu; Read D_eps_cu] C4000)
    = (calls_for D_eps_cu C4000 + 3)%nat.
Proof.
  split.
  - rewrite (computed_once_or_every_time sample_fct sample_eps_cu D_Ec
               [Read D_Ec; Read D_fct; Read D_Ec; Write D_fct 1; Read D_Ec]
               C4000 eq_refl eq_refl).
    cbn [primitive C4000 self _fc]. unfold aci318_19_Ec.
    rewrite Ec_in_range by lra. reflexivity.
  - rewrite (computed_once_or_every_time sample_fct
               (fun _ => Ok (PyFloat 0)) D_eps_cu
               [Read D_eps_cu; Read D_eps_cu; Read D_eps_cu]
               C4000 eq_refl eq_refl).
    cbn [primitive kept_by_getter truthy_num].
    rewrite (truthy_false 0 eq_refl). reflexivity.
Defined.

Lemma other_properties_untouched_witness :
  backing D_Ec
    (self (run sample_fct sample_eps_cu
             [Read D_fct; Write D_eps_cu 1; Read D_eps_cu]
             (set D_Ec 5 C4000)))
    = backing D_Ec (self (set D_Ec 5 C4000)).
Proof.
  apply (other_properties_untouched sample_fct sample_eps_cu D_Ec
           [Read D_fct; Write D_eps_cu 1; Read D_eps_cu]
           (set D_Ec 5 C4000)).
  reflexivity.
Defined.

(** ** The constitutive-law builders *)

Section BuilderFacts.

Variable aci318_19_fct : option R -> result pynum.
Variable aci318_19_eps_cu : option R -> result pynum.

Local Abbreviation getB := (get aci318_19_fct aci318_19_eps_cu).
Local Abbreviation computeB := (compute aci318_19_fct aci318_19_eps_cu).
Local Abbreviation primB := (primitive aci318_19_fct aci318_19_eps_cu).

(** A read that returns [v] leaves [v] in the backing field, and the
    code module returns [v] on the instance's [_fc] whenever the value
    did not come from a truthy (for [Ec], [fct]: any) stored one. *)
Lemma get_Ok_backing (p : derived) (w : world) (v : pynum) :
  fst (getB p w) = Ok v ->
  backing p (self (snd (getB p w))) = Some v /\
  (finds_nothing p (self w) = true -> primB p (_fc (self w)) = Ok v).
Proof.
  assert (Hc : fst (computeB p w) = Ok v ->
               backing p (self (snd (computeB p w))) = Some v /\
               primB p (_fc (self w)) = Ok v).
  { unfold compute. destruct (primB p (_fc (self w))) as [v0 | e];
      cbn [fst snd self]; [| discriminate].
    intros H; apply Ok_inj in H as ->.
    split; [apply backing_store_same | reflexivity]. }
  intros H. split.
  - unfold get in *. destruct p.
    + destruct (backing D_Ec (self w)) as [v0 |] eqn:E;
        [cbn [fst snd] in *; congruence | now apply Hc].
    + destruct (backing D_fct (self w)) as [v0 |] eqn:E;
        [cbn [fst snd] in *; congruence | now apply Hc].
    + destruct (backing D_eps_cu (self w)) as [v0 |] eqn:E;
        [| now apply Hc].
      destruct (truthy_num v0); [| now apply Hc].
      cbn [fst snd self] in *. apply Ok_inj in H as ->.
      apply backing_store_same.
  - intros Hn. rewrite (get_finds_nothing _ _ p w Hn) in H.
    now apply Hc.
Qed.

(** Reading again returns the same value. *)
Lemma get_again (p : derived) (w : world) (v : pynum) :
  fst (getB p w) = Ok v -> fst (getB p (snd (getB p w))) = Ok v.
Proof.
  intros H. destruct (get_Ok_backing p w v H) as [Hb Hprim].
  destruct (get_effect aci318_19_fct aci318_19_eps_cu p w) as [Hfc _].
  set (w1 := snd (getB p w)) in *.
  destruct (finds_nothing p (self w1)) eqn:Hn1.
  - rewrite (get_finds_nothing _ _ p w1 Hn1).
    assert (Hn : finds_nothing p (self w) = true).
    { (* a value served from the field would be served again *)
      destruct (finds_nothing p (self w)) eqn:Hn; [reflexivity |].
      exfalso. unfold finds_nothing in Hn, Hn1.
      rewrite Hb in Hn1.
      destruct (backing p (self w)) as [v0 |] eqn:E; [| discriminate].
      assert (Hheld : getB p w = (Ok v0, w)).
      { apply get_held; [exact E |].
        intros ->. now apply negb_false_iff in Hn. }
      rewrite Hheld in H. cbn [fst] in H. apply Ok_inj in H as ->.
      destruct p; congruence. }
    unfold compute. rewrite Hfc, (Hprim Hn). reflexivity.
  - assert (Hheld : getB p w1 = (Ok v, w1)).
    { apply get_held; [exact Hb |].
      intros ->. unfold finds_nothing in Hn1. rewrite Hb in Hn1.
      now apply negb_false_iff in Hn1. }
    now rewrite Hheld.
Qed.

(** X19. The three compression-law builders agree.  When
    [__bilinearcompression__] returns, [__parabolarectangle__] and
    [__sargin__] called after it return too, with the same ultimate
    strain under their own key ([eps_cu], [eps_u], [eps_cu1]) and the
    same [fc], which is the instance's [_fc]; the strain at peak stress
    is [0.002] in each. *)
Theorem compression_builders_agree (w : world) (k1 : kwargs) :
  fst (__bilinearcompression__ aci318_19_fct aci318_19_eps_cu w) = Ok k1 ->
  let w1 := snd (__bilinearcompression__ aci318_19_fct aci318_19_eps_cu w) in
  let w2 := snd (__parabolarectangle__ aci318_19_fct aci318_19_eps_cu w1) in
  exists k2 k3 eps,
    fst (__parabolarectangle__ aci318_19_fct aci318_19_eps_cu w1) = Ok k2 /\
    fst (__sargin__ aci318_19_fct aci318_19_eps_cu w2) = Ok k3 /\
    dict_get k1 "eps_cu" = Some (Some eps) /\
    dict_get k2 "eps_u" = Some (Some eps) /\
    dict_get k3 "eps_cu1" = Some (Some eps) /\
    dict_get k1 "fc" = Some (option_map PyFloat (_fc (self w))) /\
    dict_get k2 "fc" = dict_get k1 "fc" /\
    dict_get k3 "fc" = dict_get k1 "fc" /\
    dict_get k1 "eps_c" = Some (Some (PyFloat (2 / 1000))) /\
    dict_get k2 "eps_0" = Some (Some (PyFloat (2 / 1000))) /\
    dict_get k3 "eps_c1" = Some (Some (PyFloat (2 / 1000))).
Proof.
  unfold __bilinearcompression__, __parabolarectangle__, __sargin__.
  destruct (getB D_eps_cu w) as [r w1] eqn:E1. cbn [fst snd].
  destruct r as [eps | e]; cbn [bind]; [| discriminate].
  intros H; apply Ok_inj in H as <-.
  assert (H1 : fst (getB D_eps_cu w) = Ok eps) by now rewrite E1.
  pose proof (get_again D_eps_cu w eps H1) as H2. rewrite E1 in H2.
  cbn [snd] in H2.
  pose proof (get_again D_eps_cu w1 eps H2) as H3.
  destruct (get_effect aci318_19_fct aci318_19_eps_cu D_eps_cu w)
    as [Hfc1 _].
  destruct (get_effect aci318_19_fct aci318_19_eps_cu D_eps_cu w1)
    as [Hfc2 _].
  rewrite E1 in Hfc1. cbn [snd] in Hfc1.
  destruct (getB D_eps_cu w1) as [r2 w2] eqn:E2. cbn [fst snd] in *.
  subst r2.
  destruct (getB D_eps_cu w2) as [r3 w3] eqn:E3. cbn [fst snd] in *.
  subst r3. cbn [bind].
  do 2 eexists. exists eps.
  split; [reflexivity |]. split; [reflexivity |].
  rewrite Hfc2, Hfc1. repeat split.
Qed.

(** X20. The builders hand an override on unchanged and without a call
    into the code module: after [Ec] is set, [__elastic__] returns
    [{'E': abs(value)}]; after [eps_cu] is set to a non-zero value,
    [__bilinearcompression__] returns that value, sign included, under
    [eps_cu]; in both cases through any operations that do not write
    the property again, and leaving the instance as it is. *)
Theorem builders_after_override (value : R) (ops : list op) (w : world) :
  (no_write D_Ec ops = true ->
   let w' := run aci318_19_fct aci318_19_eps_cu ops (set D_Ec value w) in
   __elastic__ aci318_19_fct aci318_19_eps_cu w'
     = (Ok [("E"%string, Some (PyFloat (Rabs value)))], w')) /\
  (no_write D_eps_cu ops = true -> value <> 0 ->
   let w' := run aci318_19_fct aci318_19_eps_cu ops (set D_eps_cu value w) in
   __bilinearcompression__ aci318_19_fct aci318_19_eps_cu w'
     = (Ok [("fc"%string, option_map PyFloat (_fc (self w)));
            ("eps_c"%string, Some (PyFloat (2 / 1000)));
            ("eps_cu"%string, Some (PyFloat value))], w')).
Proof.
  split.
  - intros Hops w'.
    destruct (override_absorbing aci318_19_fct aci318_19_eps_cu
                D_Ec value ops w ltac:(discriminate) Hops) as [E _].
    unfold __elastic__. fold w' in E. rewrite E. reflexivity.
  - intros Hops Hv w'.
    destruct (override_absorbing aci318_19_fct aci318_19_eps_cu
                D_eps_cu value ops w ltac:(auto) Hops) as [E _].
    destruct (run_keeps_fc_and_log aci318_19_fct aci318_19_eps_cu ops
                (set D_eps_cu value w)) as [Hfc _].
    unfold __bilinearcompression__. fold w' in E, Hfc. rewrite E, Hfc.
    reflexivity.
Qed.

End BuilderFacts.

Lemma compression_builders_agree_witness :
  exists k1 k2 k3 eps,
    fst (__bilinearcompression__ sample_fct sample_eps_cu C4000) = Ok k1 /\
    fst (__parabolarectangle__ sample_fct sample_eps_cu
           (snd (__bilinearcompression__ sample_fct sample_eps_cu C4000)))
      = Ok k2 /\
    fst (__sargin__ sample_fct sample_eps_cu
           (snd (__parabolarectangle__ sample_fct sample_eps_cu
              (snd (__bilinearcompression__ sample_fct sample_eps_cu
                      C4000)))))
      = Ok k3 /\
    dict_get k1 "eps_cu" = Some (Some eps) /\
    dict_get k2 "eps_u" = Some (Some eps) /\
    dict_get k3 "eps_cu1" = Some (Some eps).
Proof.
  assert (E : fst (__bilinearcompression__ sample_fct sample_eps_cu C4000)
              = Ok [("fc"%string, Some (PyFloat 4000));
                    ("eps_c"%string, Some (PyFloat (2 / 1000)));
                    ("eps_cu"%string, Some (PyFloat (3 / 1000)))])
    by reflexivity.
  destruct (compression_builders_agree sample_fct sample_eps_cu C4000 _ E)
    as (k2 & k3 & eps & H2 & H3 & H4 & H5 & H6 & _).
  eexists; exists k2, k3, eps. repeat split; eassumption.
Defined.

Lemma builders_after_override_witness :
  let w' := run sample_fct sample_eps_cu [Read D_fct; Read D_Ec]
              (set D_eps_cu (-3 / 1000) C4000) in
  __bilinearcompression__ sample_fct sample_eps_cu w'
    = (Ok [("fc"%string, Some (PyFloat 4000));
           ("eps_c"%string, Some (PyFloat (2 / 1000)));
           ("eps_cu"%string, Some (PyFloat (-3 / 1000)))], w').
Proof.
  apply (builders_after_override sample_fct sample_eps_cu (-3 / 1000)
           [Read D_fct; Read D_Ec] C4000).
  - reflexivity.
  - lra.
Defined.

(** ** The reinforcement of EC2 2023 *)

(** X21. The partial factor [gamma_s] of [ReinforcementEC2_2023] is
    never zero: an omitted factor and a factor [0] both read as [1.15],
    every other factor (below one and negative ones included) reads as
    it was given, and [fyd()] with the factor omitted or [0] is the code
    module's [fyd(fyk, 1.15)]. *)
Theorem gamma_s_never_zero (ec2_2023_fyd : R -> R -> result R)
    (fyk : R) (g : option R) :
  gamma_s g <> 0 /\
  (g = None \/ g = Some 0 -> gamma_s g = 115 / 100) /\
  (forall x, g = Some x -> x <> 0 -> gamma_s g = x) /\
  gamma_s (Some (gamma_s g)) = gamma_s g /\
  ReinforcementEC2_2023_fyd ec2_2023_fyd fyk None
    = ec2_2023_fyd fyk (115 / 100) /\
  ReinforcementEC2_2023_fyd ec2_2023_fyd fyk (Some 0)
    = ec2_2023_fyd fyk (115 / 100).
Proof.
  assert (H0 : gamma_s (Some 0) = 115 / 100).
  { unfold gamma_s. now rewrite (truthy_false 0 eq_refl). }
  assert (Hx : forall x, x <> 0 -> gamma_s (Some x) = x).
  { intros x Hx. unfold gamma_s. now rewrite (truthy_true x Hx). }
  assert (Hnz : gamma_s g <> 0).
  { destruct g as [x |]; [| cbn; lra].
    destruct (Req_dec_T x 0) as [-> | Hne]; [rewrite H0; lra |].
    now rewrite Hx. }
  repeat apply conj.
  - exact Hnz.
  - intros [-> | ->]; [reflexivity | exact H0].
  - intros x -> Hne. now apply Hx.
  - now apply Hx.
  - reflexivity.
  - unfold ReinforcementEC2_2023_fyd. now rewrite H0.
Qed.

(** ** Step 2 of the shear engine *)

Lemma Vc_without_min_reinf_truthy (f_c bw d a lambda_concrete ls : R) :
  0 <= f_c -> a < 0 -> bw * d <> 0 ->
  exists p,
    py_pow (a / (bw * d)) (1 / 3) = Ok p /\
    Vc_without_min_reinf f_c bw d (Some a) lambda_concrete ls
      = Ok (PyFloat (8 * ls * lambda_concrete) *! p *! PyFloat (sqrt f_c)
              *! PyFloat bw *! PyFloat d).
Proof.
  intros Hf Ha Hbd. unfold Vc_without_min_reinf.
  rewrite truthy_true by lra. rewrite py_div_ok by assumption; cbn [bind].
  destruct (py_pow_third_total (a / (bw * d))) as [p Hp].
  exists p. split; [exact Hp |]. rewrite Hp; cbn [bind].
  rewrite math_sqrt_ok by assumption. reflexivity.
Qed.

(** C2. Step 2, on the value of [Vc] before the axial term and the
    limit, for [f_c >= 0].  With a minimum reinforcement [Av_min >= 0]
    (zero included) it is the maximum of
    [Vc_a = 2 lambda sqrt(f_c) bw d] and
    [Vc_b = 8 lambda (Av_min/(bw d))^(1/3) sqrt(f_c) bw d], whatever the
    size-effect factor is.  Otherwise it is
    [8 lambda_s lambda rho_w^(1/3) sqrt(f_c) bw d], with the size-effect
    factor, where [rho_w] is [0] when [Av_min] is omitted and
    [Av_min/(bw d)] for a truthy (negative) [Av_min]; the power is
    Python's, a real number for [rho_w >= 0] and a complex one for
    [rho_w < 0].  The returned [Vc] is the value of step 2 plus the axial
    term, cut at the limit. *)
Theorem Vc_branch_selection (f_c bw d : R) (Av_min : option R)
    (lambda_concrete ls : R) :
  0 <= f_c ->
  (forall a, Av_min = Some a -> 0 <= a -> bw * d <> 0 ->
     0 <= a / (bw * d) ->
     forall ls',
       Vc_table f_c bw d Av_min lambda_concrete ls'
         = Ok (PyFloat
                 (Rmax (2 * lambda_concrete * sqrt f_c * bw * d)
                       (8 * lambda_concrete * real_pow (a / (bw * d)) (1 / 3)
                          * sqrt f_c * bw * d)))) /\
  (Av_min = None ->
     Vc_table f_c bw d Av_min lambda_concrete ls
       = Ok (PyFloat (8 * ls * lambda_concrete * real_pow 0 (1 / 3)
                        * sqrt f_c * bw * d))) /\
  (forall a, Av_min = Some a -> a < 0 -> bw * d <> 0 ->
     let rho_w := a / (bw * d) in
     exists p,
       py_pow rho_w (1 / 3) = Ok p /\
       Vc_table f_c bw d Av_min lambda_concrete ls
         = Ok (PyFloat (8 * ls * lambda_concrete) *! p *! PyFloat (sqrt f_c)
                 *! PyFloat bw *! PyFloat d) /\
       (0 <= rho_w ->
          Vc_table f_c bw d Av_min lambda_concrete ls
            = Ok (PyFloat (8 * ls * lambda_concrete
                             * real_pow rho_w (1 / 3) * sqrt f_c * bw * d))) /\
       (rho_w < 0 -> exists re im, p = PyComplex re im)) /\
  (forall Nu Ag phi0 res,
     calc_shear_strength f_c bw d Nu Ag Av_min lambda_concrete phi0
       = Ok res ->
     exists Vc2,
       Vc_table f_c bw d Av_min lambda_concrete (lambda_s res)
         = Ok (PyFloat Vc2) /\
       Vc res = Rmin (Vc2 + Nu_term_spec f_c Nu Ag * bw * d)
                     (5 * lambda_concrete * sqrt f_c * bw * d)).
Proof.
  intros Hf. repeat apply conj.
  - intros a -> Ha Hbd Hrho ls'. unfold Vc_table.
    rewrite Rleb_true by assumption. unfold Vc_with_min_reinf.
    rewrite math_sqrt_ok by assumption; cbn [bind].
    rewrite py_div_ok by assumption; cbn [bind].
    rewrite py_pow_nonneg by (assumption || lra).
    cbn [bind py_mul]. rewrite py_max_float. reflexivity.
  - intros ->. cbn [Vc_table].
    rewrite Vc_without_min_reinf_None by assumption. reflexivity.
  - intros a -> Ha Hbd. cbv zeta. unfold Vc_table.
    rewrite Rleb_false by assumption.
    destruct (Vc_without_min_reinf_truthy f_c bw d a lambda_concrete ls
                Hf Ha Hbd) as (p & Hp & HV).
    exists p. split; [exact Hp |]. split; [exact HV |]. split.
    + intros Hrho. rewrite HV.
      rewrite py_pow_nonneg in Hp by (assumption || lra).
      apply Ok_inj in Hp as <-. reflexivity.
    + intros Hrho. destruct (py_pow_third_neg _ Hrho) as (re & im & E).
      rewrite E in Hp. apply Ok_inj in Hp as <-. eauto.
  - intros Nu Ag phi0 res H.
    apply calc_shear_strength_Ok_inv in H as (v & _ & _ & Hv & _ & ->).
    cbn [lambda_s Vc]. exists v. split; [exact Hv | reflexivity].
Qed.

(** A section with minimum reinforcement, and a truthy (negative)
    [Av_min] in the other branch: on [bw = -1], [d = 8], where the ratio
    is [1/8], and on [bw = 12], [d = 20], where it is negative. *)
Lemma Vc_branch_selection_witness :
  Vc_table 4000 12 20 (Some 240) 1 (lambda_s_spec 20)
    = Ok (PyFloat
            (Rmax (2 * 1 * sqrt 4000 * 12 * 20)
                  (8 * 1 * real_pow (240 / (12 * 20)) (1 / 3)
                     * sqrt 4000 * 12 * 20))) /\
  Vc_table 4 (-1) 8 (Some (-1)) 1 (lambda_s_spec 8)
    = Ok (PyFloat (8 * lambda_s_spec 8 * 1
                     * real_pow (-1 / (-1 * 8)) (1 / 3) * sqrt 4 * -1 * 8)) /\
  (exists res,
     calc_shear_strength 4 (-1) 8 0 None (Some (-1)) 1 None = Ok res) /\
  (exists p re im,
     py_pow (-1 / (12 * 20)) (1 / 3) = Ok p /\ p = PyComplex re im /\
     Vc_table 4000 12 20 (Some (-1)) 1 (lambda_s_spec 20)
       = Ok (PyFloat (8 * lambda_s_spec 20 * 1) *! p *! PyFloat (sqrt 4000)
               *! PyFloat 12 *! PyFloat 20)).
Proof.
  assert (Hq : -1 / (-1 * 8) = 1 / 8) by field.
  split; [| split; [| split]].
  - destruct (Vc_branch_selection 4000 12 20 (Some 240) 1
                (lambda_s_spec 20) ltac:(lra)) as (H & _).
    apply (H 240 eq_refl); lra.
  - destruct (Vc_branch_selection 4 (-1) 8 (Some (-1)) 1 (lambda_s_spec 8)
                ltac:(lra)) as (_ & _ & H & _).
    destruct (H (-1) eq_refl ltac:(lra) ltac:(lra)) as (p & _ & _ & Hr & _).
    apply Hr. rewrite Hq. lra.
  - eexists. apply calc_shear_strength_value; try lra.
    intros a Ha; injection Ha as <-. rewrite Hq. split; lra.
  - destruct (Vc_branch_selection 4000 12 20 (Some (-1)) 1
                (lambda_s_spec 20) ltac:(lra)) as (_ & _ & H & _).
    destruct (H (-1) eq_refl ltac:(lra) ltac:(lra))
      as (p & Hp & HV & _ & Hc).
    destruct Hc as (re & im & E); [apply quotient_negative_l; lra |].
    exists p, re, im. repeat split; assumption.
Defined.

(** ** The modulus of rupture and the square-root law *)

(** X2. For [f_c >= 0], [f_r(f_c, lambda_)] is
    [lambda_ * 7.5 * sqrt(f_c)]: zero at [f_c = 0] and at [lambda_ = 0],
    increasing in [lambda_] for [f_c > 0] and in [f_c] for
    [lambda_ > 0]. *)
Theorem f_r_formula_monotone (f_c lambda_ : R) :
  0 <= f_c ->
  f_r f_c lambda_ = Ok (lambda_ * (75 / 10) * sqrt f_c) /\
  f_r 0 lambda_ = Ok 0 /\
  f_r f_c 0 = Ok 0 /\
  (forall lambda', 0 < f_c -> lambda_ < lambda' ->
     exists a b, f_r f_c lambda_ = Ok a /\ f_r f_c lambda' = Ok b /\ a < b) /\
  (forall f_c', 0 < lambda_ -> f_c < f_c' ->
     exists a b, f_r f_c lambda_ = Ok a /\ f_r f_c' lambda_ = Ok b /\ a < b).
Proof.
  intros Hf. repeat apply conj.
  - now apply f_r_nonneg.
  - rewrite f_r_nonneg by lra. rewrite sqrt_0. f_equal; ring.
  - rewrite f_r_nonneg by assumption. f_equal; ring.
  - intros lambda' Hpos Hlt. rewrite !f_r_nonneg by assumption.
    do 2 eexists. do 2 (split; [reflexivity |]).
    pose proof (sqrt_lt_R0 f_c Hpos). nra.
  - intros f_c' Hl Hlt. rewrite !f_r_nonneg by lra.
    do 2 eexists. do 2 (split; [reflexivity |]).
    assert (sqrt f_c < sqrt f_c') by (apply sqrt_lt_1; lra). nra.
Qed.

Lemma f_r_formula_monotone_witness :
  f_r 4000 (8 / 10) = Ok (8 / 10 * (75 / 10) * sqrt 4000) /\
  exists a b, f_r 4000 (8 / 10) = Ok a /\ f_r 4000 1 = Ok b /\ a < b.
Proof.
  destruct (f_r_formula_monotone 4000 (8 / 10) ltac:(lra))
    as (H1 & _ & _ & H2 & _).
  split; [exact H1 |]. apply H2; lra.
Defined.

Lemma sqrt_2 : 141 / 100 < sqrt 2 < 142 / 100.
Proof.
  split.
  - apply Rle_lt_trans with (sqrt (141 / 100 * (141 / 100)));
      [rewrite sqrt_square; lra |].
    apply sqrt_lt_1; lra.
  - apply Rlt_le_trans with (sqrt (142 / 100 * (142 / 100)));
      [| rewrite sqrt_square; lra].
    apply sqrt_lt_1; lra.
Qed.

(** X7. The square-root law: for [f_c > 0], doubling the strength raises
    [Ec], at every unit weight, and [f_r], for every [lambda_ > 0], by
    more than 41 and less than 42 per cent. *)
Theorem Ec_f_r_doubling (f_c w_c lambda_ : R) :
  0 < f_c -> 0 < lambda_ ->
  exists e e2 r r2,
    Ec f_c w_c = Ok (PyFloat e) /\ Ec (2 * f_c) w_c = Ok (PyFloat e2) /\
    141 / 100 * e < e2 < 142 / 100 * e /\
    f_r f_c lambda_ = Ok r /\ f_r (2 * f_c) lambda_ = Ok r2 /\
    141 / 100 * r < r2 < 142 / 100 * r.
Proof.
  intros Hf Hl.
  assert (Hs : sqrt (2 * f_c) = sqrt 2 * sqrt f_c)
    by (apply sqrt_mult; lra).
  pose proof sqrt_2 as H2. pose proof (sqrt_lt_R0 f_c Hf) as Hpos.
  rewrite !f_r_nonneg by lra. rewrite Hs.
  assert (Hr : 141 / 100 * (lambda_ * (75 / 10) * sqrt f_c)
               < lambda_ * (75 / 10) * (sqrt 2 * sqrt f_c)
               < 142 / 100 * (lambda_ * (75 / 10) * sqrt f_c)).
  { assert (0 < lambda_ * sqrt f_c) by now apply Rmult_lt_0_compat.
    split; nra. }
  destruct (Rle_lt_dec 90 w_c) as [Hlo | Hlo];
    [destruct (Rle_lt_dec w_c 160) as [Hhi | Hhi] |].
  - rewrite !Ec_in_range by lra. rewrite Hs.
    pose proof (Rpower_pos w_c (15 / 10)) as Hp.
    assert (0 < Rpower w_c (15 / 10) * sqrt f_c)
      by now apply Rmult_lt_0_compat.
    do 4 eexists. do 2 (split; [reflexivity |]).
    split; [split; nra |]. do 2 (split; [reflexivity |]). exact Hr.
  - rewrite !Ec_out_of_range by lra. rewrite Hs.
    do 4 eexists. do 2 (split; [reflexivity |]).
    split; [split; nra |]. do 2 (split; [reflexivity |]). exact Hr.
  - rewrite !Ec_out_of_range by lra. rewrite Hs.
    do 4 eexists. do 2 (split; [reflexivity |]).
    split; [split; nra |]. do 2 (split; [reflexivity |]). exact Hr.
Qed.

Lemma Ec_f_r_doubling_witness :
  exists e e2 r r2,
    Ec 4000 145 = Ok (PyFloat e) /\ Ec (2 * 4000) 145 = Ok (PyFloat e2) /\
    141 / 100 * e < e2 < 142 / 100 * e /\
    f_r 4000 1 = Ok r /\ f_r (2 * 4000) 1 = Ok r2 /\
    141 / 100 * r < r2 < 142 / 100 * r.
Proof.
  apply (Ec_f_r_doubling 4000 145 1); lra.
Defined.

(** ** Reading [Ec] twice *)

(** X3. Reading [Ec] twice with no write in between.  When the first
    read returns a value, the second returns the same value, leaves the
    instance as it is and makes no further call into the code module.  A
    read of an unset field makes one call, whether it returns or raises.
    When the first read raises, nothing is kept: the second read calls
    the code module again and raises the same error.  That is the case
    of an instance whose [_fc] is [None], as [__init__] leaves it:
    [aci318_19.Ec(None)] raises [TypeError]. *)
Theorem Ec_read_twice
    (aci318_19_fct aci318_19_eps_cu : option R -> result pynum)
    (w : world) :
  let r1 := get aci318_19_fct aci318_19_eps_cu D_Ec w in
  let w1 := snd r1 in
  (forall v, fst r1 = Ok v ->
     get aci318_19_fct aci318_19_eps_cu D_Ec w1 = (Ok v, w1)) /\
  (backing D_Ec (self w) = None -> calls w1 = D_Ec :: calls w) /\
  (forall e, fst r1 = Raise e ->
     get aci318_19_fct aci318_19_eps_cu D_Ec w1
       = (Raise e, mk_world (self w) (D_Ec :: D_Ec :: calls w))) /\
  (backing D_Ec (self w) = None -> _fc (self w) = None ->
     fst r1 = Raise TypeError).
Proof.
  cbv zeta. repeat apply conj.
  - intros v H. apply get_held; [| discriminate].
    unfold get, compute in *. cbn [backing primitive] in *.
    destruct (_Ec (self w)) as [v0 |] eqn:E0.
    + cbn [fst snd] in *. injection H as <-. exact E0.
    + destruct (aci318_19_Ec (_fc (self w))); [| discriminate].
      cbn [fst snd self store backing _Ec] in *. now injection H as <-.
  - intros Hb. unfold get. rewrite Hb. apply compute_logs.
  - intros e H. unfold get, compute in *. cbn [backing primitive] in *.
    destruct (_Ec (self w)) as [v0 |] eqn:E0; [discriminate |].
    destruct (aci318_19_Ec (_fc (self w))) as [v | e0] eqn:E1;
      [discriminate |].
    cbn [fst snd self _Ec _fc calls] in *. injection H as ->.
    now rewrite E0, E1.
  - intros Hb Hfc. unfold get, compute. cbn [primitive]. rewrite Hb, Hfc.
    reflexivity.
Qed.

Lemma Ec_read_twice_witness :
  fst (get sample_fct sample_eps_cu D_Ec fresh) = Raise TypeError /\
  get sample_fct sample_eps_cu D_Ec
    (snd (get sample_fct sample_eps_cu D_Ec fresh))
    = (Raise TypeError, mk_world (self fresh) [D_Ec; D_Ec]) /\
  (let w1 := snd (get sample_fct sample_eps_cu D_Ec C4000) in
   get sample_fct sample_eps_cu D_Ec w1
     = (Ok (PyFloat (33 * Rpower 145 (15 / 10) * sqrt 4000)), w1) /\
   calls w1 = [D_Ec]).
Proof.
  pose proof (Ec_read_twice sample_fct sample_eps_cu fresh) as F.
  cbv zeta in F. destruct F as (_ & _ & F3 & F4).
  pose proof (F4 eq_refl eq_refl) as E.
  split; [exact E |]. split; [exact (F3 _ E) |].
  pose proof (Ec_read_twice sample_fct sample_eps_cu C4000) as G.
  cbv zeta in G. destruct G as (G1 & G2 & _).
  split; [| exact (G2 eq_refl)].
  apply G1. unfold get, compute. cbn [C4000 self backing _Ec primitive _fc].
  unfold aci318_19_Ec. now rewrite Ec_in_range by lra.
Defined.
